(** * Schema linter: configuration, annotations and the directory run

    A shallow embedding of package [linter] ([linter/config.go] and
    [linter/linter.go]) together with the properties of its public surface:
    [OptionsForDir], [Annotation.MessageWithLocation], [Result.Merge],
    [BadConfigResult] and [LintDir].

    Collaborators that live outside the package ([mybase.Config], [fs.Dir],
    [workspace.ExecLogicalSchema], [tengo.Schema], the problem registry) are
    taken through their contracts: records of the values their methods
    return, or variables of a section. *)

From Stdlib Require Import ZArith String Ascii List Lia.
From stdpp Require Import base option list gmap strings pretty.

Open Scope string_scope.
Open Scope Z_scope.

(** ** Go primitives used by the package *)

Module GoInt.
(** Go's [int] on the 64-bit targets the tool is built for: two's
    complement, addition wraps around. *)
Definition width : Z := 64.
Definition min_int : Z := - 2 ^ 63.
Definition max_int : Z := 2 ^ 63 - 1.

Definition in_range (z : Z) : Prop := min_int <= z <= max_int.

Definition wrap (z : Z) : Z := (z + 2 ^ 63) mod 2 ^ width - 2 ^ 63.

Definition add (x y : Z) : Z := wrap (x + y).
End GoInt.

(** [strings.Join]. *)
Definition Join (elems : list string) (sep : string) : string :=
  String.concat sep elems.

(** The verb [%d] of [fmt.Sprintf] applied to an [int]. *)
Definition fmt_d (z : Z) : string := pretty z.

(** ** Errors

    A non-nil value of Go's [error] interface as this package sees it: either
    a [ConfigError] (a string type defined in [config.go]) or a value of some
    other dynamic type, of which only the text of [Error()] is observed
    (what [GetRegexp], [ExecLogicalSchema] and [fmt.Errorf] hand out). *)

Inductive error : Type :=
| ConfigError (msg : string)
| OtherError (msg : string).

#[global] Instance error_eq_dec : EqDecision error.
Proof. solve_decision. Defined.

(** [err.Error()] *)
Definition Error (err : error) : string :=
  match err with
  | ConfigError msg => msg
  | OtherError msg => msg
  end.

(** [fmt.Errorf] with a format that has no [%w]: a fresh error value that is
    not a [ConfigError]. *)
Definition Errorf (text : string) : error := OtherError text.

(** The type assertion [err.(ConfigError)], comma-ok form. *)
Definition isConfigError (err : error) : bool :=
  match err with
  | ConfigError _ => true
  | OtherError _ => false
  end.

(** ** Collaborators: regular expressions, configuration, catalog, filesystem *)

(** A compiled [*regexp.Regexp]: what [MatchString] answers and the text
    [String()] gives (the verb [%s] prints it). *)
Record Regexp : Type := mkRegexp {
  MatchString : string -> bool;
  re_String : string
}.

Module mybase.
(** A [*mybase.Config] seen through the two getters the linter calls.
    [GetRegexp] returns a pair as in Go: the expression (nil when the option
    is blank) and an error (nil when the option parses). *)
Record Config : Type := mkConfig {
  GetSlice : string -> ascii -> bool -> list string;
  GetRegexp : string -> option Regexp * option error
}.
End mybase.

Module tengo.
(** [tengo.ObjectType] is a string type. *)
Definition ObjectType : Type := string.

Record ObjectKey : Type := mkObjectKey {
  Type_ : ObjectType;
  Name : string
}.

#[global] Instance ObjectKey_eq_dec : EqDecision ObjectKey.
Proof. solve_decision. Defined.

#[global] Instance ObjectKey_countable : Countable ObjectKey.
Proof.
  refine (inj_countable' (fun k => (Type_ k, Name k))
                         (fun p => mkObjectKey (fst p) (snd p)) _).
  intros [t n]; reflexivity.
Defined.
End tengo.

Module fs.
(** The fields of [fs.Statement] that the linter reads. *)
Record Statement : Type := mkStatement {
  File : string;
  LineNo : Z;
  CharNo : Z;
  Text : string
}.

#[global] Instance Statement_eq_dec : EqDecision Statement.
Proof. solve_decision. Defined.

(** [Creates] is a [map[tengo.ObjectKey]*Statement]: a key that is absent
    reads as the nil pointer. *)
Record LogicalSchema : Type := mkLogicalSchema {
  Creates : gmap tengo.ObjectKey Statement
}.

(** [RelPath] stands for the value of the method [dir.RelPath()]. *)
Record Dir : Type := mkDir {
  Config : mybase.Config;
  LogicalSchemas : list LogicalSchema;
  RelPath : string
}.
End fs.

Module workspace.
(** What the linter reads of a [*workspace.StatementError]. *)
Record StatementError : Type := mkStatementError {
  ObjectType : tengo.ObjectType;
  ObjectName : string;
  Statement : option fs.Statement;
  Err : error
}.

(** [stmtErr.ObjectKey()] *)
Definition ObjectKey (stmtErr : StatementError) : tengo.ObjectKey :=
  tengo.mkObjectKey (ObjectType stmtErr) (ObjectName stmtErr).
End workspace.

(** ** Annotations *)

(** [Statement] is a [*fs.Statement]: [None] is the nil pointer. *)
Record Annotation : Type := mkAnnotation {
  Statement : option fs.Statement;
  LineOffset : Z;
  Summary : string;
  Message : string
}.

#[global] Instance Annotation_eq_dec : EqDecision Annotation.
Proof. solve_decision. Defined.

(** [MessageWithLocation]. Every branch reads a field through [a.Statement];
    with a nil [Statement] the first of these reads panics, which is the
    result [None]. *)
Definition MessageWithLocation (a : Annotation) : option string :=
  match Statement a with
  | None => None
  | Some st =>
      if orb (bool_decide (fs.File st = "")) (bool_decide (fs.LineNo st = 0)) then
        Some (Message a ++ " [Full SQL: " ++ fs.Text st ++ "]")
      else if andb (bool_decide (LineOffset a = 0)) (bool_decide (fs.CharNo st > 1)) then
        Some (fs.File st ++ ":" ++ fmt_d (fs.LineNo st) ++ ":" ++ fmt_d (fs.CharNo st)
              ++ ": " ++ Message a)
      else
        Some (fs.File st ++ ":" ++ fmt_d (GoInt.add (fs.LineNo st) (LineOffset a))
              ++ ": " ++ Message a)
  end.

(** ** Results *)

Record Result : Type := mkResult {
  Errors : list Annotation;
  Warnings : list Annotation;
  FormatNotices : list Annotation;
  DebugLogs : list string;
  Exceptions : list error
}.

#[global] Instance Result_eq_dec : EqDecision Result.
Proof. solve_decision. Defined.

(** [&Result{}] *)
Definition emptyResult : Result := mkResult [] [] [] [] [].

(** The five statements of the form [r.F = append(r.F, xs...)]. *)
Definition appendErrors (r : Result) (xs : list Annotation) : Result :=
  mkResult (Errors r ++ xs) (Warnings r) (FormatNotices r) (DebugLogs r) (Exceptions r).
Definition appendWarnings (r : Result) (xs : list Annotation) : Result :=
  mkResult (Errors r) (Warnings r ++ xs) (FormatNotices r) (DebugLogs r) (Exceptions r).
Definition appendFormatNotices (r : Result) (xs : list Annotation) : Result :=
  mkResult (Errors r) (Warnings r) (FormatNotices r ++ xs) (DebugLogs r) (Exceptions r).
Definition appendDebugLogs (r : Result) (xs : list string) : Result :=
  mkResult (Errors r) (Warnings r) (FormatNotices r) (DebugLogs r ++ xs) (Exceptions r).
Definition appendExceptions (r : Result) (xs : list error) : Result :=
  mkResult (Errors r) (Warnings r) (FormatNotices r) (DebugLogs r) (Exceptions r ++ xs).

(** [r.Merge(other)]: the value of [*r] after the call. *)
Definition Merge (r other : Result) : Result :=
  let r := appendErrors r (Errors other) in
  let r := appendWarnings r (Warnings other) in
  let r := appendFormatNotices r (FormatNotices other) in
  let r := appendDebugLogs r (DebugLogs other) in
  let r := appendExceptions r (Exceptions other) in
  r.

Definition BadConfigResult (err : error) : Result :=
  let err := if negb (isConfigError err) then ConfigError (Error err) else err in
  mkResult [] [] [] [] [err].

(** ** Severity and options ([config.go]) *)

Inductive Severity : Type :=
| SeverityError
| SeverityWarning.

#[global] Instance Severity_eq_dec : EqDecision Severity.
Proof. solve_decision. Defined.

Record Options : Type := mkOptions {
  ProblemSeverity : gmap string Severity;
  AllowedCharSets : list string;
  AllowedEngines : list string
}.

(** [opts.ProblemSeverity[val] = sev]. The map is a reference: a copy of
    [opts] made earlier or later sees the same entries. *)
Definition setSeverity (opts : Options) (val : string) (sev : Severity) : Options :=
  mkOptions (<[val := sev]> (ProblemSeverity opts)) (AllowedCharSets opts) (AllowedEngines opts).

(** Go leaves the order in which [range] visits a map unspecified. A
    [MapRange] is one such order for every map: an enumeration known only to
    list each entry of the map once. *)
Record MapRange : Type := mkMapRange {
  range : forall (K : Type) `{Countable K} (V : Type), gmap K V -> list (K * V);
  range_perm : forall (K : Type) `{Countable K} (V : Type) (m : gmap K V),
      range K V m ≡ₚ map_to_list m
}.
Arguments range _ {K _ _ V} m.

Definition range_canonical : MapRange :=
  mkMapRange (fun K _ _ V m => map_to_list m) (fun K _ _ V m => reflexivity _).


(** ** A sample installation

    Concrete collaborators on which the statements below are run: ASCII
    lower-casing, a registry of three problems, a workspace that fails on a
    logical schema without statements and otherwise returns each statement
    with tabs turned into spaces as canonical text, and a handful of
    directories. *)

Module Sample.

Definition lowerChar (c : ascii) : ascii :=
  let n := nat_of_ascii c in
  if ((65 <=? n) && (n <=? 90))%nat then ascii_of_nat (n + 32) else c.

Fixpoint ToLower (s : string) : string :=
  match s with
  | EmptyString => EmptyString
  | String c s' => String (lowerChar c) (ToLower s')
  end.

Definition isTrailing (c : ascii) : bool :=
  bool_decide (c = ";"%char) || bool_decide (c = " "%char)
  || bool_decide (c = "010"%char).

(** Splits a text into its body and the trailing run of delimiters and
    blanks. *)
Fixpoint splitText (s : string) : string * string :=
  match s with
  | EmptyString => (EmptyString, EmptyString)
  | String c s' =>
      let '(body, suffix) := splitText s' in
      match body with
      | EmptyString =>
          if isTrailing c then (EmptyString, String c suffix)
          else (String c EmptyString, suffix)
      | _ => (String c body, suffix)
      end
  end.

Definition SplitTextBody (stmt : option fs.Statement) : string * string :=
  match stmt with
  | None => ("", "")
  | Some stmt => splitText (fs.Text stmt)
  end.

Definition Schema : Type := gmap tengo.ObjectKey string.
Definition ObjectDefinitions (schema : Schema) : gmap tengo.ObjectKey string := schema.
Definition ObjectTypeTable : tengo.ObjectType := "table".
Definition ObjectKey_String (key : tengo.ObjectKey) : string :=
  tengo.Type_ key ++ " " ++ tengo.Name key.

Fixpoint untab (s : string) : string :=
  match s with
  | EmptyString => EmptyString
  | String c s' => String (if bool_decide (c = "009"%char) then " "%char else c) (untab s')
  end.

Definition ExecLogicalSchema (logicalSchema : fs.LogicalSchema) (wsOpts : unit)
  : Schema * list workspace.StatementError * option error :=
  if bool_decide (fs.Creates logicalSchema = ∅)
  then (∅, [], Some (OtherError "no CREATE statements to run"))
  else ((fun stmt => untab (splitText (fs.Text stmt)).1) <$> fs.Creates logicalSchema,
        [], None).

(** A checker that reports every object of the schema, and two that report
    nothing. *)
Definition reportAll (summary : string)
           (schema : Schema) (logicalSchema : fs.LogicalSchema) (opts : Options)
  : list Annotation :=
  (fun entry => mkAnnotation (fs.Creates logicalSchema !! entry.1) 0 summary
                             (tengo.Name entry.1 ++ ": " ++ summary))
    <$> map_to_list schema.

Definition problems : gmap string (Schema -> fs.LogicalSchema -> Options -> list Annotation) :=
  <["no-pk" := reportAll "Table lacks a primary key"]>
    (<["bad-charset" := fun _ _ _ => []]>
       (<["bad-engine" := fun _ _ _ => []]> ∅)).

Definition prefixRegexp (p : string) : Regexp :=
  mkRegexp (String.prefix p) ("^" ++ p).

Definition config (warnings errors schemas : list string)
           (ignoreTable ignoreSchema : option Regexp * option error) : mybase.Config :=
  mybase.mkConfig
    (fun name _ _ =>
       if String.eqb name "warnings" then warnings
       else if String.eqb name "errors" then errors
       else if String.eqb name "allow-charset" then ["latin1"; "utf8mb4"]
       else if String.eqb name "allow-engine" then ["innodb"]
       else if String.eqb name "schema" then schemas
       else [])
    (fun name =>
       if String.eqb name "ignore-table" then ignoreTable
       else if String.eqb name "ignore-schema" then ignoreSchema
       else (None, None)).

Definition usersKey : tengo.ObjectKey := tengo.mkObjectKey "table" "users".
Definition postsKey : tengo.ObjectKey := tengo.mkObjectKey "table" "posts".
Definition usersStmt : fs.Statement :=
  fs.mkStatement "users.sql" 1 1 "CREATE TABLE users (id int);".
Definition postsStmt : fs.Statement :=
  fs.mkStatement "posts.sql" 1 1 ("CREATE TABLE posts (" ++ String "009"%char "id int);").

Definition usersSchema : fs.LogicalSchema := fs.mkLogicalSchema {[ usersKey := usersStmt ]}.
Definition postsSchema : fs.LogicalSchema := fs.mkLogicalSchema {[ postsKey := postsStmt ]}.
Definition emptySchema : fs.LogicalSchema := fs.mkLogicalSchema ∅.

(** Option [schema] names [analytics], which ignore-schema matches. *)
Definition dirIgnored : fs.Dir :=
  fs.mkDir (config ["no-pk"] [] ["analytics"]
                   (None, None) (Some (prefixRegexp "analytics"), None))
           [usersSchema; postsSchema] "analytics".

(** ignore-table does not parse. *)
Definition dirBadPattern : fs.Dir :=
  fs.mkDir (config ["no-pk"] [] ["app"]
                   (None, Some (OtherError
                                  "error parsing regexp: missing argument to repetition operator: `+`"))
                   (None, None))
           [usersSchema] "app".

(** An unknown name among the warnings, after a known one. *)
Definition dirBadWarnings : fs.Dir :=
  fs.mkDir (config ["no-pk"; "bogus"; "bad-engine"] ["bad-charset"] ["app"]
                   (None, None) (None, None))
           [usersSchema] "app".

(** An unknown name among the errors, after a known one. *)
Definition dirBadErrors : fs.Dir :=
  fs.mkDir (config ["no-pk"; "bad-engine"] ["No-PK"; "nope"] ["app"]
                   (None, None) (None, None))
           [usersSchema] "app".

(** [no-pk] both a warning and, spelled in capitals, an error. *)
Definition dirBoth : fs.Dir :=
  fs.mkDir (config ["no-pk"; "bad-charset"] ["No-PK"] ["app"]
                   (None, None) (None, None))
           [usersSchema] "app".

(** Three logical schemas, the second of which cannot be materialized; the
    third holds a statement that is not in canonical form. *)
Definition dirThree : fs.Dir :=
  fs.mkDir (config ["no-pk"] [] ["app"] (None, None) (None, None))
           [usersSchema; emptySchema; postsSchema] "app".

(** Every token known, in mixed case; and the same names in another order,
    with a repetition. *)
Definition dirClean : fs.Dir :=
  fs.mkDir (config ["no-pk"; "Bad-Charset"] ["bad-engine"; "NO-PK"] ["app"]
                   (None, None) (None, None))
           [usersSchema] "app".

Definition dirCleanShuffled : fs.Dir :=
  fs.mkDir (config ["BAD-CHARSET"; "no-pk"; "no-pk"] ["no-pk"; "Bad-Engine"] ["app"]
                   (None, None) (None, None))
           [usersSchema] "app".

(** No warnings configured; [no-pk] is an error. *)
Definition dirErrorsOnly : fs.Dir :=
  fs.mkDir (config [] ["no-pk"] ["app"] (None, None) (None, None))
           [usersSchema; postsSchema] "app".

(** Two statement errors: one on a table, one on a procedure of the same
    name. *)
Definition tableError : workspace.StatementError :=
  workspace.mkStatementError "table" "users_tmp" (Some usersStmt)
                             (OtherError "Table 'users_tmp' already exists").
Definition procError : workspace.StatementError :=
  workspace.mkStatementError "procedure" "users_tmp" None
                             (OtherError "You have an error in your SQL syntax").

End Sample.

(** ** The linter proper *)

Section Linter.

(** [strings.ToLower]. *)
Variable ToLower : string -> string.

(** [*tengo.Schema], with the map its method [ObjectDefinitions()] returns. *)
Context {Schema : Type}.
Variable ObjectDefinitions : Schema -> gmap tengo.ObjectKey string.

(** The constant [tengo.ObjectTypeTable] and [ObjectKey.String()]. *)
Variable ObjectTypeTable : tengo.ObjectType.
Variable ObjectKey_String : tengo.ObjectKey -> string.

(** The method [SplitTextBody] of [fs.Statement], which is called on the
    pointer read from [Creates] (nil for a missing key). *)
Variable SplitTextBody : option fs.Statement -> string * string.

(** [workspace.Options] and [workspace.ExecLogicalSchema], whose three
    results are the schema, the statement errors and the error (nil on
    success). *)
Context {WorkspaceOptions : Type}.
Variable ExecLogicalSchema :
  fs.LogicalSchema -> WorkspaceOptions ->
  Schema * list workspace.StatementError * option error.

(** The order of [range] over maps. *)
Variable order : MapRange.

(** The type of a problem checker, and the registry [problems]
    ([problems.go], a package-level map from problem name to checker). *)
Abbreviation Detector := (Schema -> fs.LogicalSchema -> Options -> list Annotation).
Variable problems : gmap string Detector.

(** Modelled from the spec: [problemExists] is in [problems.go], which is
    not among the sources. Section 4.2: the set of valid names is exactly
    the registry's key set, the single source of truth for validation. *)
Definition problemExists (name : string) : bool :=
  bool_decide (is_Some (problems !! name)).

(** Modelled from the spec: [allProblemNames] is in [problems.go], which is
    not among the sources. Sections 4.1 and 7: all known problem names, that
    is the registry's keys, here in the order a [range] over it gives. *)
Definition allProblemNames : list string := (range order problems).*1.

(** *** [OptionsForDir] *)

(** One of the two loops of [OptionsForDir]: [vals] is what is left of the
    slice, [sev] the severity the loop records and [failure] the text of
    its [ConfigError]. The loop returns from the function at the first
    unknown name, with [opts] as it stands. *)
Fixpoint severityLoop (vals : list string) (sev : Severity) (failure : string)
         (opts : Options) : Options * option error :=
  match vals with
  | [] => (opts, None)
  | val :: vals' =>
      let val := ToLower val in
      if negb (problemExists val) then (opts, Some (ConfigError failure))
      else severityLoop vals' sev failure (setSeverity opts val sev)
  end.

Definition OptionsForDir (dir : fs.Dir) : Options * option error :=
  let opts := mkOptions ∅
                (mybase.GetSlice (fs.Config dir) "allow-charset" "," true)
                (mybase.GetSlice (fs.Config dir) "allow-engine" "," true) in
  let allAllowed := Join allProblemNames ", " in
  match severityLoop (mybase.GetSlice (fs.Config dir) "warnings" "," true) SeverityWarning
          ("Option warnings must be a comma-separated list including these values: "
             ++ allAllowed) opts with
  | (opts, Some err) => (opts, Some err)
  | (opts, None) =>
      match severityLoop (mybase.GetSlice (fs.Config dir) "errors" "," true) SeverityError
              ("Option errors must be a comma-separated list including these values: "
                 ++ allAllowed) opts with
      | (opts, Some err) => (opts, Some err)
      | (opts, None) => (opts, None)
      end
  end.

(** *** [LintDir] *)

(** The inner loop over the literal schema names: [foundIgnoredName]. *)
Definition foundIgnoredName (ignoreSchema : Regexp) (schemaNames : list string) : bool :=
  fold_left (fun found schemaName =>
               if MatchString ignoreSchema schemaName then true else found)
            schemaNames false.

(** The test that guards the early exit: [ignoreSchema != nil] and
    [foundIgnoredName] over the literal names of option [schema]. *)
Definition schemaIgnored (dir : fs.Dir) (ignoreSchema : option Regexp) : bool :=
  match ignoreSchema with
  | Some re => foundIgnoredName re (mybase.GetSlice (fs.Config dir) "schema" "," true)
  | None => false
  end.

(** [ignoreTable != nil && ignoreTable.MatchString(name)] *)
Definition tableIgnored (ignoreTable : option Regexp) (name : string) : bool :=
  match ignoreTable with
  | Some re => MatchString re name
  | None => false
  end.

(** The text of an expression under [%s]: what [String()] returns, and
    [<nil>] for the nil pointer. The branches that print an expression are
    taken only with a non-nil one. *)
Definition regexpText (re : option Regexp) : string :=
  match re with
  | Some re => re_String re
  | None => "<nil>"
  end.

(** Body of the loop over [statementErrors]. *)
Definition lintStatementError (ignoreTable : option Regexp) (result : Result)
           (stmtErr : workspace.StatementError) : Result :=
  if bool_decide (workspace.ObjectType stmtErr = ObjectTypeTable)
     && tableIgnored ignoreTable (workspace.ObjectName stmtErr) then
    appendDebugLogs result
      ["Skipping " ++ ObjectKey_String (workspace.ObjectKey stmtErr)
         ++ " because ignore-table='" ++ regexpText ignoreTable ++ "'"]
  else
    appendErrors result
      [mkAnnotation (workspace.Statement stmtErr) 0
                    "SQL statement returned an error"
                    (Error (workspace.Err stmtErr))].

(** The loop over [opts.ProblemSeverity]. Calling the nil function that
    [problems] gives for a name it does not hold panics: [None]. *)
Fixpoint lintProblems (schema : Schema) (logicalSchema : fs.LogicalSchema) (opts : Options)
         (entries : list (string * Severity)) (result : Result) : option Result :=
  match entries with
  | [] => Some result
  | (problemName, severity) :: entries' =>
      match problems !! problemName with
      | None => None
      | Some detector =>
          let annotations := detector schema logicalSchema opts in
          lintProblems schema logicalSchema opts entries'
            (if bool_decide (severity = SeverityWarning)
             then appendWarnings result annotations
             else appendErrors result annotations)
      end
  end.

(** Body of the loop over [schema.ObjectDefinitions()]. *)
Definition lintObjectDefinition (ignoreTable : option Regexp)
           (logicalSchema : fs.LogicalSchema) (result : Result)
           (entry : tengo.ObjectKey * string) : Result :=
  let '(key, instCreateText) := entry in
  if bool_decide (tengo.Type_ key = ObjectTypeTable)
     && tableIgnored ignoreTable (tengo.Name key) then
    appendDebugLogs result
      ["Skipping " ++ ObjectKey_String key
         ++ " because ignore-table='" ++ regexpText ignoreTable ++ "'"]
  else
    let fsStmt := fs.Creates logicalSchema !! key in
    let '(fsBody, fsSuffix) := SplitTextBody fsStmt in
    if negb (bool_decide (instCreateText = fsBody)) then
      appendFormatNotices result
        [mkAnnotation fsStmt 0 "SQL statement should be reformatted"
                      (instCreateText ++ fsSuffix)]
    else result.

(** The loop over [dir.LogicalSchemas], from the schema at the head of
    [logicalSchemas] on, with [result] as accumulated so far. *)
Fixpoint lintLogicalSchemas (dir : fs.Dir) (wsOpts : WorkspaceOptions)
         (ignoreTable ignoreSchema : option Regexp) (opts : Options)
         (logicalSchemas : list fs.LogicalSchema) (result : Result) : option Result :=
  match logicalSchemas with
  | [] => Some result
  | logicalSchema :: rest =>
      if schemaIgnored dir ignoreSchema then
        Some (appendDebugLogs result
                ["Skipping schema in " ++ fs.RelPath dir
                   ++ " because ignore-schema='" ++ regexpText ignoreSchema ++ "'"])
      else
        let '(schema, statementErrors, err) := ExecLogicalSchema logicalSchema wsOpts in
        match err with
        | Some err =>
            lintLogicalSchemas dir wsOpts ignoreTable ignoreSchema opts rest
              (appendExceptions result
                 [Errorf ("Skipping schema in " ++ fs.RelPath dir
                            ++ " due to error: " ++ Error err)])
        | None =>
            let result :=
              fold_left (lintStatementError ignoreTable) statementErrors result in
            match lintProblems schema logicalSchema opts
                    (range order (ProblemSeverity opts)) result with
            | None => None
            | Some result =>
                let result :=
                  fold_left (lintObjectDefinition ignoreTable logicalSchema)
                            (range order (ObjectDefinitions schema)) result in
                lintLogicalSchemas dir wsOpts ignoreTable ignoreSchema opts rest result
            end
        end
  end.

(** [LintDir]; [None] is a run that panics. *)
Definition LintDir (dir : fs.Dir) (wsOpts : WorkspaceOptions) : option Result :=
  let result := emptyResult in
  match mybase.GetRegexp (fs.Config dir) "ignore-table" with
  | (_, Some err) => Some (BadConfigResult err)
  | (ignoreTable, None) =>
      match mybase.GetRegexp (fs.Config dir) "ignore-schema" with
      | (_, Some err) => Some (BadConfigResult err)
      | (ignoreSchema, None) =>
          match OptionsForDir dir with
          | (_, Some err) => Some (BadConfigResult err)
          | (opts, None) =>
              lintLogicalSchemas dir wsOpts ignoreTable ignoreSchema opts
                                 (fs.LogicalSchemas dir) result
          end
      end
  end.


(** *** Vocabulary of the statements below *)

(** A name the registry knows, after lower-casing. *)
Definition known (val : string) : Prop := problemExists (ToLower val) = true.

(** The severity map after the entries of [processed] were written into
    [m], first to last. *)
Definition recorded (processed : list (string * Severity))
           (m : gmap string Severity) : gmap string Severity :=
  fold_left (fun m entry => <[ToLower entry.1 := entry.2]> m) processed m.

(** [msg] enumerates the known problem names: each occurs in it. *)
Definition enumeratesProblems (msg : string) : Prop :=
  forall name, is_Some (problems !! name) -> exists pre post, msg = pre ++ name ++ post.

(** [r'] keeps what [r] holds: in each field, the entries of [r] come
    first, in their order. *)
Definition keeps (r r' : Result) : Prop :=
  Errors r `prefix_of` Errors r'
  /\ Warnings r `prefix_of` Warnings r'
  /\ FormatNotices r `prefix_of` FormatNotices r'
  /\ DebugLogs r `prefix_of` DebugLogs r'
  /\ Exceptions r `prefix_of` Exceptions r'.

(** What the reformat step owes for one object of the materialized schema,
    in the words of section 4.4 (e): nothing for a table matched by
    ignore-table, nothing when the canonical text equals the body of the
    filesystem statement, else one notice. *)
Definition reformatNotice (ignoreTable : option Regexp) (logicalSchema : fs.LogicalSchema)
           (entry : tengo.ObjectKey * string) : option Annotation :=
  let fsStmt := fs.Creates logicalSchema !! entry.1 in
  if bool_decide (tengo.Type_ entry.1 = ObjectTypeTable
                  /\ tableIgnored ignoreTable (tengo.Name entry.1) = true) then None
  else if bool_decide (entry.2 = (SplitTextBody fsStmt).1) then None
  else Some (mkAnnotation fsStmt 0 "SQL statement should be reformatted"
                          (entry.2 ++ (SplitTextBody fsStmt).2)).

(** The debug entry owed for an object that is a table matched by
    ignore-table. *)
Definition ignoredTableLog (ignoreTable : option Regexp)
           (entry : tengo.ObjectKey * string) : option string :=
  if bool_decide (tengo.Type_ entry.1 = ObjectTypeTable
                  /\ tableIgnored ignoreTable (tengo.Name entry.1) = true)
  then Some ("Skipping " ++ ObjectKey_String entry.1
               ++ " because ignore-table='" ++ regexpText ignoreTable ++ "'")
  else None.

(** The four list-valued options as [OptionsForDir] reads them, and an
    entry list for each severity. *)
Definition warningsOf (dir : fs.Dir) : list string :=
  mybase.GetSlice (fs.Config dir) "warnings" "," true.
Definition errorsOf (dir : fs.Dir) : list string :=
  mybase.GetSlice (fs.Config dir) "errors" "," true.
Definition asWarnings (vals : list string) : list (string * Severity) :=
  (fun val => (val, SeverityWarning)) <$> vals.
Definition asErrors (vals : list string) : list (string * Severity) :=
  (fun val => (val, SeverityError)) <$> vals.

(** What the loop over the statement errors owes for one of them: a debug
    entry when it concerns a table matched by ignore-table, an annotation
    among the errors otherwise. *)
Definition statementErrorAnnotation (ignoreTable : option Regexp)
           (stmtErr : workspace.StatementError) : option Annotation :=
  if bool_decide (workspace.ObjectType stmtErr = ObjectTypeTable
                  /\ tableIgnored ignoreTable (workspace.ObjectName stmtErr) = true)
  then None
  else Some (mkAnnotation (workspace.Statement stmtErr) 0
                          "SQL statement returned an error"
                          (Error (workspace.Err stmtErr))).

Definition statementErrorLog (ignoreTable : option Regexp)
           (stmtErr : workspace.StatementError) : option string :=
  if bool_decide (workspace.ObjectType stmtErr = ObjectTypeTable
                  /\ tableIgnored ignoreTable (workspace.ObjectName stmtErr) = true)
  then Some ("Skipping " ++ ObjectKey_String (workspace.ObjectKey stmtErr)
               ++ " because ignore-table='" ++ regexpText ignoreTable ++ "'")
  else None.

(** The annotations of the checkers that [entries] gives severity [sev], in
    the order of [entries]. *)
Definition problemAnnotations (schema : Schema) (logicalSchema : fs.LogicalSchema)
           (opts : Options) (sev : Severity) (entries : list (string * Severity))
  : list Annotation :=
  flat_map (fun entry =>
              if bool_decide (entry.2 = sev) then
                match problems !! entry.1 with
                | Some detector => detector schema logicalSchema opts
                | None => []
                end
              else [])
           entries.

(** The exception recorded for a logical schema that does not materialize. *)
Definition materializationException (dir : fs.Dir) (err : error) : error :=
  Errorf ("Skipping schema in " ++ fs.RelPath dir ++ " due to error: " ++ Error err).

(** Everything one logical schema contributes to the result when the
    directory is not ignored. *)
Definition schemaFindings (dir : fs.Dir) (wsOpts : WorkspaceOptions)
           (ignoreTable : option Regexp) (opts : Options)
           (logicalSchema : fs.LogicalSchema) : Result :=
  let '(schema, statementErrors, err) := ExecLogicalSchema logicalSchema wsOpts in
  match err with
  | Some err => mkResult [] [] [] [] [materializationException dir err]
  | None =>
      let entries := range order (ProblemSeverity opts) in
      let visited := range order (ObjectDefinitions schema) in
      mkResult
        (omap (statementErrorAnnotation ignoreTable) statementErrors
           ++ problemAnnotations schema logicalSchema opts SeverityError entries)
        (problemAnnotations schema logicalSchema opts SeverityWarning entries)
        (omap (reformatNotice ignoreTable logicalSchema) visited)
        (omap (statementErrorLog ignoreTable) statementErrors
           ++ omap (ignoredTableLog ignoreTable) visited)
        []
  end.

(** *** Facts about [OptionsForDir] *)

Lemma known_iff (val : string) : known val <-> is_Some (problems !! ToLower val).
Proof. unfold known, problemExists. by rewrite bool_decide_eq_true. Qed.

Lemma unknown_iff (val : string) :
  ~ known val <-> problemExists (ToLower val) = false.
Proof. unfold known. by destruct (problemExists (ToLower val)). Qed.

#[local] Instance known_dec (val : string) : Decision (known val).
Proof. unfold known. apply _. Defined.

Lemma recorded_snoc processed entry m :
  recorded (processed ++ [entry])%list m = <[ToLower entry.1 := entry.2]> (recorded processed m).
Proof. unfold recorded. by rewrite fold_left_app. Qed.

Lemma recorded_app p1 p2 m : recorded (p1 ++ p2)%list m = recorded p2 (recorded p1 m).
Proof. unfold recorded. by rewrite fold_left_app. Qed.

(** The last write to a name decides; names never written keep the value
    [m] had. *)
Lemma recorded_lookup processed m name :
  recorded processed m !! name =
    match last (filter (fun entry => ToLower entry.1 = name) processed) with
    | Some entry => Some entry.2
    | None => m !! name
    end.
Proof.
  induction processed as [|entry processed IH] using rev_ind; [done|].
  rewrite recorded_snoc, filter_app, filter_cons, filter_nil.
  destruct (decide (ToLower entry.1 = name)) as [<-|Hne].
  - by rewrite last_snoc, lookup_insert_eq.
  - by rewrite app_nil_r, lookup_insert_ne.
Qed.

Lemma recorded_dom processed m name :
  is_Some (recorded processed m !! name) ->
  is_Some (m !! name) \/ name ∈ (fun entry => ToLower entry.1) <$> processed.
Proof.
  induction processed as [|entry processed IH] using rev_ind; [by left|].
  rewrite recorded_snoc, fmap_app, elem_of_app. simpl.
  destruct (decide (ToLower entry.1 = name)) as [<-|Hne].
  - intros _. right; right. apply list_elem_of_singleton. done.
  - rewrite lookup_insert_ne by done. intros H. destruct (IH H); auto.
Qed.

(** Each loop either runs to the end, having written every value, or stops
    at the first unknown one, having written the values before it. *)
Lemma severityLoop_spec vals sev failure opts :
  (Forall known vals
   /\ severityLoop vals sev failure opts =
        (mkOptions (recorded ((fun v => (v, sev)) <$> vals) (ProblemSeverity opts))
                   (AllowedCharSets opts) (AllowedEngines opts), None))
  \/ (exists seen bad rest,
         vals = (seen ++ bad :: rest)%list /\ Forall known seen /\ ~ known bad
         /\ severityLoop vals sev failure opts =
              (mkOptions (recorded ((fun v => (v, sev)) <$> seen) (ProblemSeverity opts))
                         (AllowedCharSets opts) (AllowedEngines opts),
               Some (ConfigError failure))).
Proof.
  revert opts. induction vals as [|val vals IH]; intros opts.
  - left. split; [constructor|]. by destruct opts.
  - simpl. destruct (problemExists (ToLower val)) eqn:Hval; simpl.
    + destruct (IH (setSeverity opts (ToLower val) sev))
        as [[Hall ->]|(seen & bad & rest & -> & Hd & Hb & ->)].
      * left. split; [by constructor|]. done.
      * right. exists (val :: seen), bad, rest. repeat split; try done. by constructor.
    + right. exists [], val, vals. repeat split; try done.
      * by apply unknown_iff.
      * by destruct opts.
Qed.

(** The three ways [OptionsForDir] can end. *)
Lemma OptionsForDir_spec (dir : fs.Dir) :
  let charsets := mybase.GetSlice (fs.Config dir) "allow-charset" "," true in
  let engines := mybase.GetSlice (fs.Config dir) "allow-engine" "," true in
  (Forall known (warningsOf dir) /\ Forall known (errorsOf dir)
   /\ OptionsForDir dir =
        (mkOptions (recorded (asWarnings (warningsOf dir) ++ asErrors (errorsOf dir))%list ∅)
                   charsets engines, None))
  \/ (exists seen bad rest,
         warningsOf dir = (seen ++ bad :: rest)%list /\ Forall known seen /\ ~ known bad
         /\ OptionsForDir dir =
              (mkOptions (recorded (asWarnings seen) ∅) charsets engines,
               Some (ConfigError
                       ("Option warnings must be a comma-separated list including these values: "
                          ++ Join allProblemNames ", "))))
  \/ (exists seen bad rest,
         Forall known (warningsOf dir)
         /\ errorsOf dir = (seen ++ bad :: rest)%list /\ Forall known seen /\ ~ known bad
         /\ OptionsForDir dir =
              (mkOptions (recorded (asWarnings (warningsOf dir) ++ asErrors seen)%list ∅)
                         charsets engines,
               Some (ConfigError
                       ("Option errors must be a comma-separated list including these values: "
                          ++ Join allProblemNames ", ")))).
Proof.
  intros charsets engines. unfold OptionsForDir.
  fold (warningsOf dir) (errorsOf dir) charsets engines.
  match goal with |- context [severityLoop (warningsOf dir) ?sev ?f ?o] =>
    destruct (severityLoop_spec (warningsOf dir) sev f o)
      as [[HW ->]|(seen & bad & rest & HWeq & Hseen & Hbad & ->)] end.
  - match goal with |- context [severityLoop (errorsOf dir) ?sev ?f ?o] =>
      destruct (severityLoop_spec (errorsOf dir) sev f o)
        as [[HE ->]|(seen & bad & rest & HEeq & Hseen & Hbad & ->)] end; simpl.
    + left. repeat split; try done. by rewrite recorded_app.
    + right; right. exists seen, bad, rest. repeat split; try done.
      by rewrite recorded_app.
  - right; left. exists seen, bad, rest. done.
Qed.

Lemma string_app_cons (c : ascii) (s1 s2 : string) :
  String c s1 ++ s2 = String c (s1 ++ s2).
Proof. reflexivity. Qed.

Lemma string_app_assoc (s1 s2 s3 : string) : (s1 ++ s2) ++ s3 = s1 ++ s2 ++ s3.
Proof.
  induction s1 as [|c s1 IH]; [reflexivity|].
  by rewrite !string_app_cons, IH.
Qed.

Lemma string_app_empty_r (s : string) : s ++ "" = s.
Proof.
  induction s as [|c s IH]; [reflexivity|].
  by rewrite string_app_cons, IH.
Qed.

(** Every element of a joined list occurs in the joined text. *)
Lemma Join_occurs (elems : list string) (sep name : string) :
  name ∈ elems -> exists pre post, Join elems sep = pre ++ name ++ post.
Proof.
  unfold Join. induction elems as [|x elems IH]; intros Hin.
  - by apply elem_of_nil in Hin.
  - apply elem_of_cons in Hin as [->|Hin].
    + destruct elems as [|y elems].
      * exists "", "". simpl. by rewrite string_app_empty_r.
      * exists "", (sep ++ String.concat sep (y :: elems)). done.
    + destruct (IH Hin) as (pre & post & Heq).
      destruct elems as [|y elems]; [by apply elem_of_nil in Hin|].
      exists (x ++ sep ++ pre), post.
      change (String.concat sep (x :: y :: elems))
        with (x ++ sep ++ String.concat sep (y :: elems)).
      by rewrite Heq, !string_app_assoc.
Qed.

Lemma allProblemNames_complete (name : string) :
  is_Some (problems !! name) <-> name ∈ allProblemNames.
Proof.
  unfold allProblemNames. rewrite (range_perm order), list_elem_of_fmap. split.
  - intros [detector Hd]. exists (name, detector). split; [done|].
    by apply elem_of_map_to_list.
  - intros ([name' detector] & -> & Hin). exists detector.
    by apply elem_of_map_to_list in Hin.
Qed.

Lemma allProblemNames_enumerated (text : string) :
  enumeratesProblems (text ++ Join allProblemNames ", ").
Proof.
  intros name Hname. apply allProblemNames_complete in Hname.
  destruct (Join_occurs allProblemNames ", " name Hname) as (pre & post & ->).
  exists (text ++ pre), post. by rewrite string_app_assoc.
Qed.

Lemma Exists_first_unknown (vals : list string) :
  Exists (fun val => ~ known val) vals ->
  exists seen bad rest,
    vals = (seen ++ bad :: rest)%list /\ Forall known seen /\ ~ known bad.
Proof.
  induction vals as [|val vals IH]; intros HE; [by apply Exists_nil in HE|].
  destruct (decide (known val)) as [Hk|Hk].
  - apply Exists_cons in HE as [HE|HE]; [done|].
    destruct (IH HE) as (seen & bad & rest & -> & Hs & Hb).
    exists (val :: seen), bad, rest. repeat split; try done. by constructor.
  - exists [], val, vals. repeat split; try done.
Qed.

Lemma Forall_known_split (seen rest : list string) (bad : string) :
  Forall known (seen ++ bad :: rest) -> ~ known bad -> False.
Proof.
  intros HF Hb. apply Forall_app in HF as [_ HF].
  apply Forall_cons in HF as [HF _]. done.
Qed.

(** C3. When a token of the warnings list is, once lower-cased, not a known
    problem name, [OptionsForDir] returns a [ConfigError] whose message
    begins with "Option warnings "; when the warnings list is clean and a
    token of the errors list is unknown, it returns a [ConfigError] whose
    message begins with "Option errors ". In both cases the message is the
    fixed sentence for that option followed by the joined list of all
    known problem names, each of which therefore occurs in it. *)
Theorem OptionsForDir_unknown_name (dir : fs.Dir) :
  (Exists (fun val => ~ known val) (warningsOf dir) ->
   exists opts msg,
     OptionsForDir dir = (opts, Some (ConfigError msg))
     /\ msg = "Option warnings must be a comma-separated list including these values: "
                ++ Join allProblemNames ", "
     /\ String.prefix "Option warnings " msg = true
     /\ enumeratesProblems msg)
  /\ (Forall known (warningsOf dir) ->
      Exists (fun val => ~ known val) (errorsOf dir) ->
      exists opts msg,
        OptionsForDir dir = (opts, Some (ConfigError msg))
        /\ msg = "Option errors must be a comma-separated list including these values: "
                   ++ Join allProblemNames ", "
        /\ String.prefix "Option errors " msg = true
        /\ enumeratesProblems msg).
Proof.
  split.
  - intros HE.
    destruct (OptionsForDir_spec dir)
      as [(HW & _)|[(seen & bad & rest & _ & _ & _ & ->)|(seen & bad & rest & HW & _)]].
    + apply Exists_first_unknown in HE as (s & b & r & Heq & _ & Hb).
      rewrite Heq in HW. by destruct (Forall_known_split _ _ _ HW Hb).
    + eexists _, _. repeat split. apply allProblemNames_enumerated.
    + apply Exists_first_unknown in HE as (s & b & r & Heq & _ & Hb).
      rewrite Heq in HW. by destruct (Forall_known_split _ _ _ HW Hb).
  - intros HW HE.
    destruct (OptionsForDir_spec dir)
      as [(_ & HE' & _)|[(seen & bad & rest & Heq & _ & Hb & _)
                         |(seen & bad & rest & _ & _ & _ & _ & ->)]].
    + apply Exists_first_unknown in HE as (s & b & r & Heq & _ & Hb).
      rewrite Heq in HE'. by destruct (Forall_known_split _ _ _ HE' Hb).
    + rewrite Heq in HW. by destruct (Forall_known_split _ _ _ HW Hb).
    + eexists _, _. repeat split. apply allProblemNames_enumerated.
Qed.

(** Writing a list of values with one severity [sev] after anything else:
    a name among them reads [sev], any other name reads what it read
    before. *)
Lemma recorded_last_list processed vals sev m name :
  name ∈ ToLower <$> vals ->
  recorded (processed ++ ((fun val => (val, sev)) <$> vals))%list m !! name = Some sev.
Proof.
  induction vals as [|val vals IH] using rev_ind; intros Hin.
  - by apply elem_of_nil in Hin.
  - rewrite fmap_app, list_fmap_singleton, app_assoc, recorded_snoc. simpl.
    destruct (decide (ToLower val = name)) as [->|Hne].
    + apply lookup_insert_eq.
    + rewrite lookup_insert_ne by done. apply IH.
      rewrite fmap_app, elem_of_app in Hin. destruct Hin as [Hin|Hin]; [done|].
      apply list_elem_of_singleton in Hin. congruence.
Qed.

Lemma recorded_other_list processed vals sev m name :
  name ∉ ToLower <$> vals ->
  recorded (processed ++ ((fun val => (val, sev)) <$> vals))%list m !! name
  = recorded processed m !! name.
Proof.
  induction vals as [|val vals IH] using rev_ind; intros Hin.
  - by rewrite app_nil_r.
  - rewrite fmap_app, list_fmap_singleton, app_assoc, recorded_snoc. simpl.
    rewrite fmap_app, not_elem_of_app in Hin. destruct Hin as [Hin1 Hin2].
    rewrite lookup_insert_ne; [by apply IH|].
    intros <-. apply Hin2. by apply list_elem_of_singleton.
Qed.

(** C4. When [OptionsForDir] succeeds and a name occurs, after
    lower-casing, both among the warnings and among the errors, the
    severity map it returns gives that name severity error. *)
Theorem OptionsForDir_errors_win (dir : fs.Dir) (opts : Options) (name : string) :
  OptionsForDir dir = (opts, None) ->
  name ∈ ToLower <$> warningsOf dir ->
  name ∈ ToLower <$> errorsOf dir ->
  ProblemSeverity opts !! name = Some SeverityError.
Proof.
  intros Hopts _ HE.
  destruct (OptionsForDir_spec dir)
    as [(_ & _ & Heq)|[(? & ? & ? & _ & _ & _ & Heq)|(? & ? & ? & _ & _ & _ & _ & Heq)]];
    rewrite Heq in Hopts; [|done..].
  injection Hopts as <-. simpl. by apply recorded_last_list.
Qed.

(** C9. When [OptionsForDir] returns an error, the [Options] returned with
    it are not empty-handed: both allow-lists are filled from the
    configuration, and the severity map holds exactly the entries written
    before the unknown token was met: the warnings before it when it is a
    warning, all warnings and the errors before it when it is an error. *)
Theorem OptionsForDir_error_not_atomic (dir : fs.Dir) (opts : Options) (err : error) :
  OptionsForDir dir = (opts, Some err) ->
  isConfigError err = true
  /\ AllowedCharSets opts = mybase.GetSlice (fs.Config dir) "allow-charset" "," true
  /\ AllowedEngines opts = mybase.GetSlice (fs.Config dir) "allow-engine" "," true
  /\ exists seen bad rest,
       Forall known seen /\ ~ known bad
       /\ ((warningsOf dir = (seen ++ bad :: rest)%list
            /\ ProblemSeverity opts = recorded (asWarnings seen) ∅
            /\ forall val, val ∈ seen ->
                 ProblemSeverity opts !! ToLower val = Some SeverityWarning)
           \/ (Forall known (warningsOf dir)
               /\ errorsOf dir = (seen ++ bad :: rest)%list
               /\ ProblemSeverity opts
                  = recorded (asWarnings (warningsOf dir) ++ asErrors seen)%list ∅
               /\ (forall val, val ∈ seen ->
                     ProblemSeverity opts !! ToLower val = Some SeverityError)
               /\ (forall val, val ∈ warningsOf dir ->
                     ProblemSeverity opts !! ToLower val
                     = Some (if bool_decide (ToLower val ∈ ToLower <$> seen)
                             then SeverityError else SeverityWarning)))).
Proof.
  intros Hopts.
  destruct (OptionsForDir_spec dir)
    as [(_ & _ & Heq)|[(seen & bad & rest & HW & Hs & Hb & Heq)
                      |(seen & bad & rest & HW & HE & Hs & Hb & Heq)]];
    rewrite Heq in Hopts; [done|..]; injection Hopts as <- <-; simpl;
    (split; [done|]); (split; [done|]); (split; [done|]);
    exists seen, bad, rest; (split; [done|]); (split; [done|]).
  - left. split; [done|]. split; [done|]. intros val Hval.
    apply (recorded_last_list [] seen SeverityWarning).
    by apply list_elem_of_fmap_2.
  - right. split; [done|]. split; [done|]. split; [done|]. split.
    + intros val Hval. apply recorded_last_list. by apply list_elem_of_fmap_2.
    + intros val Hval. case_bool_decide as Hin.
      * by apply recorded_last_list.
      * unfold asErrors. rewrite recorded_other_list by done.
        apply (recorded_last_list [] (warningsOf dir) SeverityWarning).
        by apply list_elem_of_fmap_2.
Qed.

(** *** Facts about the loops of [LintDir] *)

#[local] Instance keeps_refl : Reflexive keeps.
Proof. intros r. by repeat split. Qed.

#[local] Instance keeps_trans : Transitive keeps.
Proof.
  intros r1 r2 r3 (?&?&?&?&?) (?&?&?&?&?).
  repeat split; by etrans.
Qed.

Lemma keeps_appendErrors r xs : keeps r (appendErrors r xs).
Proof. repeat split; simpl; try done. by apply prefix_app_r. Qed.
Lemma keeps_appendWarnings r xs : keeps r (appendWarnings r xs).
Proof. repeat split; simpl; try done. by apply prefix_app_r. Qed.
Lemma keeps_appendFormatNotices r xs : keeps r (appendFormatNotices r xs).
Proof. repeat split; simpl; try done. by apply prefix_app_r. Qed.
Lemma keeps_appendDebugLogs r xs : keeps r (appendDebugLogs r xs).
Proof. repeat split; simpl; try done. by apply prefix_app_r. Qed.
Lemma keeps_appendExceptions r xs : keeps r (appendExceptions r xs).
Proof. repeat split; simpl; try done. by apply prefix_app_r. Qed.

(** Every name [OptionsForDir] writes into the severity map is a key of
    the registry, whether the call ends well or not. *)
Lemma OptionsForDir_keys_known (dir : fs.Dir) (opts : Options) (err : option error) :
  OptionsForDir dir = (opts, err) ->
  forall name, is_Some (ProblemSeverity opts !! name) -> is_Some (problems !! name).
Proof.
  intros Hopts name Hname.
  assert (exists processed, Forall known processed.*1
                            /\ ProblemSeverity opts = recorded processed ∅)
    as (processed & Hknown & Heq).
  { destruct (OptionsForDir_spec dir)
      as [(HW & HE & Heq)|[(seen & bad & rest & _ & Hs & _ & Heq)
                          |(seen & bad & rest & HW & _ & Hs & _ & Heq)]];
      rewrite Heq in Hopts; injection Hopts as <- _; eexists; (split; [|done]);
      unfold asWarnings, asErrors;
      rewrite ?fmap_app, <- !list_fmap_compose, ?Forall_app;
      repeat split; by rewrite Forall_fmap. }
  rewrite Heq in Hname. apply recorded_dom in Hname as [Hname|Hname].
  - rewrite lookup_empty in Hname. by destruct Hname.
  - apply list_elem_of_fmap in Hname as ([val sev] & -> & Hin).
    apply known_iff. rewrite Forall_forall in Hknown. apply Hknown.
    apply list_elem_of_fmap. by exists (val, sev).
Qed.

(** The loop over the statement errors leaves three fields alone and only
    adds to the other two. *)
Lemma lintStatementErrors_frame ignoreTable statementErrors result :
  let result' := fold_left (lintStatementError ignoreTable) statementErrors result in
  keeps result result'
  /\ Warnings result' = Warnings result
  /\ FormatNotices result' = FormatNotices result
  /\ Exceptions result' = Exceptions result.
Proof.
  revert result. induction statementErrors as [|stmtErr errs IH]; intros result; simpl.
  - done.
  - destruct (IH (lintStatementError ignoreTable result stmtErr)) as (Hk & HW & HF & HX).
    rewrite HW, HF, HX. unfold lintStatementError in *.
    destruct (_ && _); simpl.
    + split; [etrans; [apply keeps_appendDebugLogs|exact Hk]|done].
    + split; [etrans; [apply keeps_appendErrors|exact Hk]|done].
Qed.

(** With every entry a key of the registry the loop over the problems does
    not panic; it leaves three fields alone and only adds to the other
    two. *)
Lemma lintProblems_total schema logicalSchema opts entries result :
  Forall (fun entry => is_Some (problems !! entry.1)) entries ->
  exists result',
    lintProblems schema logicalSchema opts entries result = Some result'
    /\ keeps result result'
    /\ FormatNotices result' = FormatNotices result
    /\ DebugLogs result' = DebugLogs result
    /\ Exceptions result' = Exceptions result.
Proof.
  revert result. induction entries as [|[problemName severity] entries IH];
    intros result Hall; cbn [lintProblems].
  - by exists result.
  - apply Forall_cons in Hall as [[detector Hd] Hall]. cbn [fst] in Hd. rewrite Hd.
    match goal with |- context [lintProblems _ _ _ _ ?r] =>
      destruct (IH r Hall) as (result' & -> & Hk & HF & HD & HX) end.
    exists result'. rewrite HF, HD, HX.
    case_bool_decide; simpl.
    + split; [done|]. split; [etrans; [apply keeps_appendWarnings|exact Hk]|done].
    + split; [done|]. split; [etrans; [apply keeps_appendErrors|exact Hk]|done].
Qed.

(** The reformat loop adds, object by object, the notice and the debug
    entry that [reformatNotice] and [ignoredTableLog] name, and nothing
    else. *)
Lemma lintObjectDefinitions_spec ignoreTable logicalSchema entries result :
  fold_left (lintObjectDefinition ignoreTable logicalSchema) entries result
  = mkResult (Errors result) (Warnings result)
             (FormatNotices result ++ omap (reformatNotice ignoreTable logicalSchema) entries)
             (DebugLogs result ++ omap (ignoredTableLog ignoreTable) entries)
             (Exceptions result).
Proof.
  revert result. induction entries as [|[key text] entries IH]; intros result; simpl.
  - rewrite !app_nil_r. by destruct result.
  - rewrite IH. unfold lintObjectDefinition, reformatNotice, ignoredTableLog. simpl.
    destruct (SplitTextBody (fs.Creates logicalSchema !! key)) as [fsBody fsSuffix] eqn:Hsplit.
    simpl.
    destruct (bool_decide (tengo.Type_ key = ObjectTypeTable)) eqn:Htype;
      destruct (tableIgnored ignoreTable (tengo.Name key)) eqn:Hign; simpl;
      try apply bool_decide_eq_true in Htype; try apply bool_decide_eq_false in Htype.
    1: { rewrite bool_decide_eq_true_2 by done. simpl. by rewrite <- app_assoc. }
    all: rewrite (bool_decide_eq_false_2 (_ /\ _)) by (intros [? ?]; done).
    all: case_bool_decide; simpl; rewrite ?app_nil_r, <- ?app_assoc; done.
Qed.

(** The loop over the names of option [schema] answers whether some name
    matches. *)
Lemma foundIgnoredName_existsb (ignoreSchema : Regexp) (schemaNames : list string) :
  foundIgnoredName ignoreSchema schemaNames = existsb (MatchString ignoreSchema) schemaNames.
Proof.
  unfold foundIgnoredName.
  assert (forall found,
             fold_left (fun found schemaName =>
                          if MatchString ignoreSchema schemaName then true else found)
                       schemaNames found
             = found || existsb (MatchString ignoreSchema) schemaNames) as Hgen.
  { induction schemaNames as [|schemaName schemaNames IH]; intros found; simpl.
    - by rewrite orb_false_r.
    - rewrite IH. destruct (MatchString ignoreSchema schemaName), found; done. }
  apply Hgen.
Qed.

Lemma schemaIgnored_true (dir : fs.Dir) (ignoreSchema : option Regexp) :
  schemaIgnored dir ignoreSchema = true <->
  exists re schemaName,
    ignoreSchema = Some re
    /\ schemaName ∈ mybase.GetSlice (fs.Config dir) "schema" "," true
    /\ MatchString re schemaName = true.
Proof.
  unfold schemaIgnored. destruct ignoreSchema as [re|].
  - rewrite foundIgnoredName_existsb, existsb_exists. split.
    + intros (schemaName & Hin & Hm). exists re, schemaName.
      by rewrite list_elem_of_In.
    + intros (re' & schemaName & [= <-] & Hin & Hm). exists schemaName.
      by rewrite <- list_elem_of_In.
  - split; [done|]. by intros (? & ? & ? & _).
Qed.

(** The early exit: with a matching name the loop returns at the schema it
    stands at, whatever follows. *)
Lemma lintLogicalSchemas_ignored dir wsOpts ignoreTable ignoreSchema opts
      logicalSchema rest result :
  schemaIgnored dir ignoreSchema = true ->
  lintLogicalSchemas dir wsOpts ignoreTable ignoreSchema opts (logicalSchema :: rest) result
  = Some (appendDebugLogs result
            ["Skipping schema in " ++ fs.RelPath dir
               ++ " because ignore-schema='" ++ regexpText ignoreSchema ++ "'"]).
Proof. intros Hign. cbn [lintLogicalSchemas]. by rewrite Hign. Qed.

(** Without a matching name, the run from one schema on is the run on that
    schema followed by the run on the rest. *)
Lemma lintLogicalSchemas_cons dir wsOpts ignoreTable ignoreSchema opts
      logicalSchema rest result :
  schemaIgnored dir ignoreSchema = false ->
  lintLogicalSchemas dir wsOpts ignoreTable ignoreSchema opts (logicalSchema :: rest) result
  = lintLogicalSchemas dir wsOpts ignoreTable ignoreSchema opts [logicalSchema] result
      ≫= lintLogicalSchemas dir wsOpts ignoreTable ignoreSchema opts rest.
Proof.
  intros Hign. cbn [lintLogicalSchemas]. rewrite Hign.
  destruct (ExecLogicalSchema logicalSchema wsOpts) as [[schema statementErrors] [err|]];
    [done|].
  by destruct (lintProblems _ _ _ _ _).
Qed.

Lemma lintLogicalSchemas_app dir wsOpts ignoreTable ignoreSchema opts before after result :
  schemaIgnored dir ignoreSchema = false ->
  lintLogicalSchemas dir wsOpts ignoreTable ignoreSchema opts (before ++ after)%list result
  = lintLogicalSchemas dir wsOpts ignoreTable ignoreSchema opts before result
      ≫= lintLogicalSchemas dir wsOpts ignoreTable ignoreSchema opts after.
Proof.
  intros Hign. revert result. induction before as [|logicalSchema before IH]; intros result.
  - done.
  - rewrite <- app_comm_cons.
    rewrite (lintLogicalSchemas_cons _ _ _ _ _ logicalSchema (before ++ after)) by done.
    rewrite (lintLogicalSchemas_cons _ _ _ _ _ logicalSchema before) by done.
    destruct (lintLogicalSchemas _ _ _ _ _ [logicalSchema] result) as [result'|]; [|done].
    apply IH.
Qed.

(** A severity map whose names are all keys of the registry. *)
Lemma range_ProblemSeverity_known (opts : Options) :
  (forall name, is_Some (ProblemSeverity opts !! name) -> is_Some (problems !! name)) ->
  Forall (fun entry => is_Some (problems !! entry.1)) (range order (ProblemSeverity opts)).
Proof.
  intros Hknown. apply Forall_forall. intros [name severity] Hin.
  rewrite (range_perm order) in Hin. apply elem_of_map_to_list in Hin.
  apply Hknown. by exists severity.
Qed.

(** With such options the loop over the logical schemas does not panic, and
    what it returns keeps everything collected before. *)
Lemma lintLogicalSchemas_total dir wsOpts ignoreTable ignoreSchema opts logicalSchemas result :
  (forall name, is_Some (ProblemSeverity opts !! name) -> is_Some (problems !! name)) ->
  exists result',
    lintLogicalSchemas dir wsOpts ignoreTable ignoreSchema opts logicalSchemas result
    = Some result'
    /\ keeps result result'.
Proof.
  intros Hknown. revert result.
  induction logicalSchemas as [|logicalSchema rest IH]; intros result.
  - by exists result.
  - cbn [lintLogicalSchemas]. destruct (schemaIgnored dir ignoreSchema).
    { eexists. split; [done|]. apply keeps_appendDebugLogs. }
    destruct (ExecLogicalSchema logicalSchema wsOpts) as [[schema statementErrors] [err|]].
    + match goal with |- context [lintLogicalSchemas _ _ _ _ _ rest ?r] =>
        destruct (IH r) as (result' & -> & Hk) end.
      exists result'. split; [done|]. etrans; [apply keeps_appendExceptions|exact Hk].
    + destruct (lintStatementErrors_frame ignoreTable statementErrors result) as (Hk1 & _).
      match goal with |- context [lintProblems ?s ?l ?o ?e ?r] =>
        destruct (lintProblems_total s l o e r (range_ProblemSeverity_known opts Hknown))
          as (result2 & -> & Hk2 & _) end.
      rewrite lintObjectDefinitions_spec.
      match goal with |- context [lintLogicalSchemas _ _ _ _ _ rest ?r] =>
        destruct (IH r) as (result' & -> & Hk) end.
      exists result'. split; [done|].
      etrans; [exact Hk1|]. etrans; [exact Hk2|]. etrans; [|exact Hk].
      repeat split; simpl; try done; by apply prefix_app_r.
Qed.

(** *** The directory run *)

Lemma BadConfigResult_shape (err : error) :
  BadConfigResult err = mkResult [] [] [] [] [ConfigError (Error err)].
Proof. by destruct err. Qed.

(** C2. When reading ignore-table fails, or reading ignore-schema fails, or
    [OptionsForDir] fails, [LintDir] returns at once the result of
    [BadConfigResult] on the first of these failures: one exception, a
    [ConfigError] carrying the text of that failure, and four empty fields.
    The logical schemas of the directory play no part in it. *)
Theorem LintDir_bad_config (dir : fs.Dir) (wsOpts : WorkspaceOptions) :
  (mybase.GetRegexp (fs.Config dir) "ignore-table").2 <> None
  \/ (mybase.GetRegexp (fs.Config dir) "ignore-schema").2 <> None
  \/ (OptionsForDir dir).2 <> None ->
  exists err,
    Some err = match (mybase.GetRegexp (fs.Config dir) "ignore-table").2 with
               | Some e => Some e
               | None =>
                   match (mybase.GetRegexp (fs.Config dir) "ignore-schema").2 with
                   | Some e => Some e
                   | None => (OptionsForDir dir).2
                   end
               end
    /\ LintDir dir wsOpts = Some (BadConfigResult err)
    /\ BadConfigResult err = mkResult [] [] [] [] [ConfigError (Error err)].
Proof.
  intros Hfail. unfold LintDir.
  destruct (mybase.GetRegexp (fs.Config dir) "ignore-table") as [ignoreTable [e1|]]; simpl in *.
  { exists e1. repeat split. apply BadConfigResult_shape. }
  destruct (mybase.GetRegexp (fs.Config dir) "ignore-schema") as [ignoreSchema [e2|]];
    simpl in *.
  { exists e2. repeat split. apply BadConfigResult_shape. }
  destruct (OptionsForDir dir) as [opts [e3|]]; simpl in *.
  { exists e3. repeat split. apply BadConfigResult_shape. }
  destruct Hfail as [?|[?|?]]; done.
Qed.

(** C1, as the code has it. With a configuration that reads well, an
    ignore-schema expression and a literal schema name that matches it, the
    loop returns as soon as it stands at a logical schema: it appends one
    debug entry to what was collected and stops, so no logical schema of the
    directory is materialized. [LintDir] then returns a result that holds that
    one debug entry and nothing else when the directory has a logical schema,
    and the empty result when it has none. *)
Theorem LintDir_ignore_schema_returns (dir : fs.Dir) (wsOpts : WorkspaceOptions)
        (ignoreTable : option Regexp) (re : Regexp) (opts : Options) (schemaName : string) :
  mybase.GetRegexp (fs.Config dir) "ignore-table" = (ignoreTable, None) ->
  mybase.GetRegexp (fs.Config dir) "ignore-schema" = (Some re, None) ->
  OptionsForDir dir = (opts, None) ->
  schemaName ∈ mybase.GetSlice (fs.Config dir) "schema" "," true ->
  MatchString re schemaName = true ->
  let skip := "Skipping schema in " ++ fs.RelPath dir
                ++ " because ignore-schema='" ++ re_String re ++ "'" in
  (forall logicalSchema rest result,
      lintLogicalSchemas dir wsOpts ignoreTable (Some re) opts (logicalSchema :: rest) result
      = Some (appendDebugLogs result [skip]))
  /\ LintDir dir wsOpts
     = Some (match fs.LogicalSchemas dir with
             | [] => emptyResult
             | _ :: _ => mkResult [] [] [] [skip] []
             end).
Proof.
  intros HT HS HO Hin Hmatch skip.
  assert (schemaIgnored dir (Some re) = true) as Hign.
  { apply schemaIgnored_true. by exists re, schemaName. }
  split.
  - intros logicalSchema rest result. by apply lintLogicalSchemas_ignored.
  - unfold LintDir. rewrite HT, HS, HO.
    destruct (fs.LogicalSchemas dir) as [|logicalSchema rest]; [done|].
    by rewrite lintLogicalSchemas_ignored.
Qed.

(** C7. In a directory whose configuration reads well and whose schemas are
    not ignored, let the materialization of one logical schema fail with
    [err]. Then the run over the schemas before it ends in some result; the
    failing schema adds to it exactly one exception, whose text names the
    directory and [err], and nothing else; the run goes on with the schemas
    after it from there, and what [LintDir] returns keeps, field by field
    and in order, everything collected up to and including that exception. *)
Theorem LintDir_materialization_failure (dir : fs.Dir) (wsOpts : WorkspaceOptions)
        (ignoreTable ignoreSchema : option Regexp) (opts : Options)
        (before after : list fs.LogicalSchema) (logicalSchema : fs.LogicalSchema)
        (schema : Schema) (statementErrors : list workspace.StatementError) (err : error) :
  mybase.GetRegexp (fs.Config dir) "ignore-table" = (ignoreTable, None) ->
  mybase.GetRegexp (fs.Config dir) "ignore-schema" = (ignoreSchema, None) ->
  OptionsForDir dir = (opts, None) ->
  schemaIgnored dir ignoreSchema = false ->
  fs.LogicalSchemas dir = (before ++ logicalSchema :: after)%list ->
  ExecLogicalSchema logicalSchema wsOpts = (schema, statementErrors, Some err) ->
  let run := lintLogicalSchemas dir wsOpts ignoreTable ignoreSchema opts in
  let exception := Errorf ("Skipping schema in " ++ fs.RelPath dir
                             ++ " due to error: " ++ Error err) in
  exists collected final,
    run before emptyResult = Some collected
    /\ run [logicalSchema] collected = Some (appendExceptions collected [exception])
    /\ run after (appendExceptions collected [exception]) = Some final
    /\ LintDir dir wsOpts = Some final
    /\ keeps (appendExceptions collected [exception]) final
    /\ Exceptions final !! length (Exceptions collected) = Some exception.
Proof.
  intros HT HS HO Hign Hdir Hexec run exception. subst run.
  pose proof (OptionsForDir_keys_known dir opts None HO) as Hknown.
  destruct (lintLogicalSchemas_total dir wsOpts ignoreTable ignoreSchema opts
              before emptyResult Hknown) as (collected & Hbefore & _).
  destruct (lintLogicalSchemas_total dir wsOpts ignoreTable ignoreSchema opts
              after (appendExceptions collected [exception]) Hknown)
    as (final & Hafter & Hkeeps).
  assert (lintLogicalSchemas dir wsOpts ignoreTable ignoreSchema opts
            [logicalSchema] collected
          = Some (appendExceptions collected [exception])) as Hone.
  { cbn [lintLogicalSchemas]. by rewrite Hign, Hexec. }
  exists collected, final.
  split; [exact Hbefore|]. split; [exact Hone|]. split; [exact Hafter|].
  split; [|split; [exact Hkeeps|]].
  - unfold LintDir. rewrite HT, HS, HO, Hdir.
    rewrite lintLogicalSchemas_app, Hbefore by done. cbn [mbind option_bind].
    rewrite lintLogicalSchemas_cons, Hone by done. cbn [mbind option_bind]. exact Hafter.
  - destruct Hkeeps as (_ & _ & _ & _ & [more Hmore]). rewrite Hmore. simpl.
    rewrite <- app_assoc. rewrite lookup_app_r by lia.
    by rewrite Nat.sub_diag.
Qed.

Lemma range_entries {K : Type} `{Countable K} {V : Type} (m : gmap K V) :
  (forall key value, m !! key = Some value <-> (key, value) ∈ range order m)
  /\ NoDup (range order m).*1.
Proof.
  split.
  - intros key value. rewrite (range_perm order). symmetry. apply elem_of_map_to_list.
  - rewrite (range_perm order). apply NoDup_fst_map_to_list.
Qed.

(** The outcome owed for one object, case by case. *)
Lemma reformatNotice_cases ignoreTable logicalSchema key text :
  let fsStmt := fs.Creates logicalSchema !! key in
  let ignored := tengo.Type_ key = ObjectTypeTable
                 /\ tableIgnored ignoreTable (tengo.Name key) = true in
  (ignored ->
   reformatNotice ignoreTable logicalSchema (key, text) = None
   /\ ignoredTableLog ignoreTable (key, text)
      = Some ("Skipping " ++ ObjectKey_String key
                ++ " because ignore-table='" ++ regexpText ignoreTable ++ "'"))
  /\ (~ ignored -> text = (SplitTextBody fsStmt).1 ->
      reformatNotice ignoreTable logicalSchema (key, text) = None
      /\ ignoredTableLog ignoreTable (key, text) = None)
  /\ (~ ignored -> text <> (SplitTextBody fsStmt).1 ->
      reformatNotice ignoreTable logicalSchema (key, text)
      = Some (mkAnnotation fsStmt 0 "SQL statement should be reformatted"
                           (text ++ (SplitTextBody fsStmt).2))
      /\ ignoredTableLog ignoreTable (key, text) = None).
Proof.
  intros fsStmt ignored. unfold reformatNotice, ignoredTableLog. cbn [fst snd].
  fold fsStmt. fold ignored. repeat split; intros.
  - by rewrite bool_decide_eq_true_2.
  - by rewrite bool_decide_eq_true_2.
  - rewrite (bool_decide_eq_false_2 ignored) by done. by rewrite bool_decide_eq_true_2.
  - by rewrite (bool_decide_eq_false_2 ignored).
  - rewrite (bool_decide_eq_false_2 ignored) by done. by rewrite bool_decide_eq_false_2.
  - by rewrite (bool_decide_eq_false_2 ignored).
Qed.

(** C8. In a directory whose configuration reads well and whose schemas are
    not ignored, let one logical schema materialize. The reformat step visits
    each object of the materialized schema exactly once. For an object that
    is a table matched by ignore-table it adds one debug entry and no notice;
    for any other object it adds no notice when the canonical text equals the
    body of the filesystem statement, and exactly one notice otherwise, with
    summary "SQL statement should be reformatted" and with the canonical text
    followed by the statement's suffix as message. The format notices added
    for this schema are these and no others, in the order of the visit, and
    the result of [LintDir] keeps them. *)
Theorem LintDir_format_notices (dir : fs.Dir) (wsOpts : WorkspaceOptions)
        (ignoreTable ignoreSchema : option Regexp) (opts : Options)
        (before after : list fs.LogicalSchema) (logicalSchema : fs.LogicalSchema)
        (schema : Schema) (statementErrors : list workspace.StatementError) :
  mybase.GetRegexp (fs.Config dir) "ignore-table" = (ignoreTable, None) ->
  mybase.GetRegexp (fs.Config dir) "ignore-schema" = (ignoreSchema, None) ->
  OptionsForDir dir = (opts, None) ->
  schemaIgnored dir ignoreSchema = false ->
  fs.LogicalSchemas dir = (before ++ logicalSchema :: after)%list ->
  ExecLogicalSchema logicalSchema wsOpts = (schema, statementErrors, None) ->
  let run := lintLogicalSchemas dir wsOpts ignoreTable ignoreSchema opts in
  let visited := range order (ObjectDefinitions schema) in
  (forall key text, ObjectDefinitions schema !! key = Some text <-> (key, text) ∈ visited)
  /\ NoDup visited.*1
  /\ (forall key text,
         let fsStmt := fs.Creates logicalSchema !! key in
         let ignored := tengo.Type_ key = ObjectTypeTable
                        /\ tableIgnored ignoreTable (tengo.Name key) = true in
         (ignored ->
          reformatNotice ignoreTable logicalSchema (key, text) = None
          /\ ignoredTableLog ignoreTable (key, text)
             = Some ("Skipping " ++ ObjectKey_String key
                       ++ " because ignore-table='" ++ regexpText ignoreTable ++ "'"))
         /\ (~ ignored -> text = (SplitTextBody fsStmt).1 ->
             reformatNotice ignoreTable logicalSchema (key, text) = None
             /\ ignoredTableLog ignoreTable (key, text) = None)
         /\ (~ ignored -> text <> (SplitTextBody fsStmt).1 ->
             reformatNotice ignoreTable logicalSchema (key, text)
             = Some (mkAnnotation fsStmt 0 "SQL statement should be reformatted"
                                  (text ++ (SplitTextBody fsStmt).2))
             /\ ignoredTableLog ignoreTable (key, text) = None))
  /\ exists collected linted final,
      run before emptyResult = Some collected
      /\ run [logicalSchema] collected = Some linted
      /\ run after linted = Some final
      /\ LintDir dir wsOpts = Some final
      /\ FormatNotices linted
         = (FormatNotices collected
              ++ omap (reformatNotice ignoreTable logicalSchema) visited)%list
      /\ (exists logs,
             DebugLogs linted
             = (DebugLogs collected ++ logs ++ omap (ignoredTableLog ignoreTable) visited)%list)
      /\ keeps linted final.
Proof.
  intros HT HS HO Hign Hdir Hexec run visited. subst run.
  destruct (range_entries (ObjectDefinitions schema)) as [Hvisit Hnodup].
  split; [exact Hvisit|]. split; [exact Hnodup|].
  split; [intros key text; apply reformatNotice_cases|].
  pose proof (OptionsForDir_keys_known dir opts None HO) as Hknown.
  destruct (lintLogicalSchemas_total dir wsOpts ignoreTable ignoreSchema opts
              before emptyResult Hknown) as (collected & Hbefore & _).
  destruct (lintStatementErrors_frame ignoreTable statementErrors collected)
    as (Hk1 & _ & HF1 & _).
  destruct (lintProblems_total schema logicalSchema opts
              (range order (ProblemSeverity opts))
              (fold_left (lintStatementError ignoreTable) statementErrors collected)
              (range_ProblemSeverity_known opts Hknown))
    as (checked & Hchecked & _ & HF2 & HD2 & _).
  set (linted := fold_left (lintObjectDefinition ignoreTable logicalSchema) visited checked).
  assert (lintLogicalSchemas dir wsOpts ignoreTable ignoreSchema opts
            [logicalSchema] collected = Some linted) as Hone.
  { cbn [lintLogicalSchemas]. by rewrite Hign, Hexec, Hchecked. }
  destruct (lintLogicalSchemas_total dir wsOpts ignoreTable ignoreSchema opts
              after linted Hknown) as (final & Hafter & Hkeeps).
  exists collected, linted, final.
  split; [exact Hbefore|]. split; [exact Hone|]. split; [exact Hafter|].
  split; [|split; [|split; [|exact Hkeeps]]].
  - unfold LintDir. rewrite HT, HS, HO, Hdir.
    rewrite lintLogicalSchemas_app, Hbefore by done. cbn [mbind option_bind].
    rewrite lintLogicalSchemas_cons, Hone by done. cbn [mbind option_bind]. exact Hafter.
  - unfold linted. rewrite lintObjectDefinitions_spec. simpl. by rewrite HF2, HF1.
  - destruct Hk1 as (_ & _ & _ & [logs Hlogs] & _). exists logs.
    unfold linted. rewrite lintObjectDefinitions_spec. simpl.
    by rewrite HD2, Hlogs, <- app_assoc.
Qed.


(** *** Further properties of [OptionsForDir] *)

Lemma Forall_known_Exists_unknown (vals : list string) :
  Forall known vals -> Exists (fun val => ~ known val) vals -> False.
Proof.
  intros HF HE. apply Exists_first_unknown in HE as (seen & bad & rest & -> & _ & Hb).
  by apply (Forall_known_split seen rest bad).
Qed.

(** Reading a name after the warnings and then the errors were written. *)
Lemma recorded_two_lists (warnings errors : list string) (name : string) :
  recorded (asWarnings warnings ++ asErrors errors)%list ∅ !! name
  = if bool_decide (name ∈ ToLower <$> errors) then Some SeverityError
    else if bool_decide (name ∈ ToLower <$> warnings) then Some SeverityWarning
         else None.
Proof.
  unfold asErrors. case_bool_decide as HinE.
  - by apply recorded_last_list.
  - rewrite recorded_other_list by done.
    case_bool_decide as HinW.
    + by apply (recorded_last_list [] warnings SeverityWarning).
    + unfold asWarnings.
      rewrite (recorded_other_list [] warnings SeverityWarning) by done.
      apply lookup_empty.
Qed.

(** The outcome of a call in which every token is known. *)
Lemma OptionsForDir_all_known (dir : fs.Dir) :
  Forall known (warningsOf dir) ->
  Forall known (errorsOf dir) ->
  OptionsForDir dir
  = (mkOptions (recorded (asWarnings (warningsOf dir) ++ asErrors (errorsOf dir))%list ∅)
               (mybase.GetSlice (fs.Config dir) "allow-charset" "," true)
               (mybase.GetSlice (fs.Config dir) "allow-engine" "," true), None).
Proof.
  intros HW HE.
  destruct (OptionsForDir_spec dir)
    as [(_ & _ & Heq)|[(seen & bad & rest & Hsplit & _ & Hb & _)
                      |(seen & bad & rest & _ & Hsplit & _ & Hb & _)]].
  - exact Heq.
  - rewrite Hsplit in HW. by destruct (Forall_known_split _ _ _ HW Hb).
  - rewrite Hsplit in HE. by destruct (Forall_known_split _ _ _ HE Hb).
Qed.

(** X1. With every token of both lists known, [OptionsForDir] succeeds: the
    allow-lists are the configured ones, and the severity map gives error to
    the names among the errors, warning to the other names among the
    warnings, and holds no other name. *)
Theorem OptionsForDir_success (dir : fs.Dir) :
  Forall known (warningsOf dir) ->
  Forall known (errorsOf dir) ->
  exists opts,
    OptionsForDir dir = (opts, None)
    /\ AllowedCharSets opts = mybase.GetSlice (fs.Config dir) "allow-charset" "," true
    /\ AllowedEngines opts = mybase.GetSlice (fs.Config dir) "allow-engine" "," true
    /\ forall name,
        ProblemSeverity opts !! name
        = if bool_decide (name ∈ ToLower <$> errorsOf dir) then Some SeverityError
          else if bool_decide (name ∈ ToLower <$> warningsOf dir) then Some SeverityWarning
               else None.
Proof.
  intros HW HE. eexists. split; [by apply OptionsForDir_all_known|].
  split; [done|]. split; [done|].
  intros name. simpl. apply recorded_two_lists.
Qed.

(** X2. [OptionsForDir] returns an error exactly when some token of the
    warnings or of the errors is, once lower-cased, unknown; the error is
    then a [ConfigError]. *)
Theorem OptionsForDir_error_iff (dir : fs.Dir) :
  ((OptionsForDir dir).2 <> None
   <-> Exists (fun val => ~ known val) (warningsOf dir ++ errorsOf dir)%list)
  /\ forall err, (OptionsForDir dir).2 = Some err -> isConfigError err = true.
Proof.
  rewrite Exists_app.
  destruct (OptionsForDir_spec dir)
    as [(HW & HE & Heq)|[(seen & bad & rest & Hsplit & _ & Hb & Heq)
                        |(seen & bad & rest & HW & Hsplit & _ & Hb & Heq)]];
    rewrite Heq; simpl; (split; [split|]).
  - done.
  - intros [H|H];
      [by destruct (Forall_known_Exists_unknown _ HW H)
      |by destruct (Forall_known_Exists_unknown _ HE H)].
  - done.
  - intros _. left. rewrite Hsplit. apply Exists_app. right. by apply Exists_cons_hd.
  - done.
  - by intros err [= <-].
  - intros _. right. rewrite Hsplit. apply Exists_app. right. by apply Exists_cons_hd.
  - done.
  - by intros err [= <-].
Qed.

(** X3. Whatever way [OptionsForDir] ends, every name in the severity map
    it hands back passed [problemExists] and is the lower-cased form of a
    token of the warnings or of the errors. *)
Theorem OptionsForDir_keys_checked (dir : fs.Dir) (opts : Options) (err : option error)
        (name : string) :
  OptionsForDir dir = (opts, err) ->
  is_Some (ProblemSeverity opts !! name) ->
  problemExists name = true
  /\ name ∈ ToLower <$> (warningsOf dir ++ errorsOf dir)%list.
Proof.
  intros Hopts Hname. split.
  { apply bool_decide_eq_true. by apply (OptionsForDir_keys_known dir opts err). }
  assert (forall (sev : Severity) (vals : list string),
             ((fun val => (val, sev)) <$> vals).*1 = vals) as Hfst.
  { intros sev vals. rewrite <- list_fmap_compose. apply list_fmap_id. }
  assert (exists processed,
             (forall val, val ∈ processed.*1 -> val ∈ (warningsOf dir ++ errorsOf dir)%list)
             /\ ProblemSeverity opts = recorded processed ∅) as (processed & Hsub & Heq).
  { destruct (OptionsForDir_spec dir)
      as [(_ & _ & Heq)|[(seen & bad & rest & Hsplit & _ & _ & Heq)
                        |(seen & bad & rest & _ & Hsplit & _ & _ & Heq)]];
      rewrite Heq in Hopts; injection Hopts as <- _; eexists; (split; [|done]);
      unfold asWarnings, asErrors; rewrite ?fmap_app, !Hfst; intros val.
    - done.
    - rewrite Hsplit, !elem_of_app. tauto.
    - rewrite Hsplit, !elem_of_app. tauto. }
  rewrite Heq in Hname. apply recorded_dom in Hname as [Hname|Hname].
  - rewrite lookup_empty in Hname. by destruct Hname.
  - apply list_elem_of_fmap in Hname as ([val sev] & -> & Hin).
    apply list_elem_of_fmap. exists val. split; [done|].
    apply Hsub. apply list_elem_of_fmap. by exists (val, sev).
Qed.

(** X4. On success the severity map depends only on which names occur in
    each list after lower-casing: order, repetition and letter case of the
    tokens make no difference. *)
Theorem OptionsForDir_names_only (dir dir' : fs.Dir) :
  Forall known (warningsOf dir) ->
  Forall known (errorsOf dir) ->
  (forall name, name ∈ ToLower <$> warningsOf dir <-> name ∈ ToLower <$> warningsOf dir') ->
  (forall name, name ∈ ToLower <$> errorsOf dir <-> name ∈ ToLower <$> errorsOf dir') ->
  (OptionsForDir dir).2 = None
  /\ (OptionsForDir dir').2 = None
  /\ ProblemSeverity (OptionsForDir dir).1 = ProblemSeverity (OptionsForDir dir').1.
Proof.
  intros HW HE HsameW HsameE.
  assert (forall vals vals' : list string,
             Forall known vals ->
             (forall name, name ∈ ToLower <$> vals <-> name ∈ ToLower <$> vals') ->
             Forall known vals') as Hmove.
  { intros vals vals' Hk Hsame. apply Forall_forall. intros val' Hin.
    assert (ToLower val' ∈ ToLower <$> vals) as Hin'.
    { apply Hsame. by apply list_elem_of_fmap_2. }
    apply list_elem_of_fmap in Hin' as (val & Hlow & Hval).
    rewrite Forall_forall in Hk. specialize (Hk val Hval).
    unfold known in *. by rewrite Hlow. }
  rewrite (OptionsForDir_all_known dir HW HE).
  rewrite (OptionsForDir_all_known dir' (Hmove _ _ HW HsameW) (Hmove _ _ HE HsameE)).
  split; [done|]. split; [done|]. simpl.
  apply map_eq. intros name. rewrite !recorded_two_lists.
  by rewrite (bool_decide_ext _ _ (HsameE name)), (bool_decide_ext _ _ (HsameW name)).
Qed.

(** *** Further properties of [LintDir] *)

Lemma mjoin_cons {A : Type} (l : list A) (ls : list (list A)) :
  mjoin (l :: ls) = (l ++ mjoin ls)%list.
Proof. reflexivity. Qed.

Lemma Merge_fields (r other : Result) :
  Merge r other
  = mkResult (Errors r ++ Errors other) (Warnings r ++ Warnings other)
             (FormatNotices r ++ FormatNotices other)
             (DebugLogs r ++ DebugLogs other) (Exceptions r ++ Exceptions other).
Proof. reflexivity. Qed.

Lemma Merge_assoc (r1 r2 r3 : Result) :
  Merge (Merge r1 r2) r3 = Merge r1 (Merge r2 r3).
Proof. rewrite !Merge_fields. simpl. by rewrite <- !app_assoc. Qed.

Lemma Merge_empty_r (r : Result) : Merge r emptyResult = r.
Proof. rewrite Merge_fields. simpl. rewrite !app_nil_r. by destruct r. Qed.

Lemma Merge_empty_l (r : Result) : Merge emptyResult r = r.
Proof. rewrite Merge_fields. simpl. by destruct r. Qed.


(** The loop over the statement errors adds, error by error, the annotation
    or the debug entry that [statementErrorAnnotation] and
    [statementErrorLog] name. *)
Lemma lintStatementErrors_spec ignoreTable statementErrors result :
  fold_left (lintStatementError ignoreTable) statementErrors result
  = mkResult (Errors result ++ omap (statementErrorAnnotation ignoreTable) statementErrors)
             (Warnings result) (FormatNotices result)
             (DebugLogs result ++ omap (statementErrorLog ignoreTable) statementErrors)
             (Exceptions result).
Proof.
  revert result. induction statementErrors as [|stmtErr errs IH]; intros result; simpl.
  - rewrite !app_nil_r. by destruct result.
  - rewrite IH. unfold lintStatementError, statementErrorAnnotation, statementErrorLog.
    destruct (bool_decide (workspace.ObjectType stmtErr = ObjectTypeTable)) eqn:Htype;
      destruct (tableIgnored ignoreTable (workspace.ObjectName stmtErr)) eqn:Hign; simpl;
      try apply bool_decide_eq_true in Htype; try apply bool_decide_eq_false in Htype.
    1: { rewrite bool_decide_eq_true_2 by done. simpl. by rewrite <- app_assoc. }
    all: rewrite (bool_decide_eq_false_2 (_ /\ _)) by (intros [? ?]; done).
    all: simpl; by rewrite <- app_assoc.
Qed.

(** With every entry a key of the registry, the loop over the problems adds
    the annotations of the warning-level checkers to the warnings and those
    of the others to the errors. *)
Lemma lintProblems_spec schema logicalSchema opts entries result :
  Forall (fun entry => is_Some (problems !! entry.1)) entries ->
  lintProblems schema logicalSchema opts entries result
  = Some (mkResult
            (Errors result
               ++ problemAnnotations schema logicalSchema opts SeverityError entries)
            (Warnings result
               ++ problemAnnotations schema logicalSchema opts SeverityWarning entries)
            (FormatNotices result) (DebugLogs result) (Exceptions result)).
Proof.
  revert result. induction entries as [|[problemName severity] entries IH];
    intros result Hall; cbn [lintProblems problemAnnotations flat_map].
  - rewrite !app_nil_r. by destruct result.
  - apply Forall_cons in Hall as [[detector Hd] Hall]. cbn [fst snd] in *. rewrite Hd.
    rewrite IH by done. fold (problemAnnotations schema logicalSchema opts).
    destruct severity; simpl; by rewrite <- ?app_assoc, ?app_nil_r.
Qed.

(** The step of the loop at one logical schema, and the whole loop, when no
    schema name is ignored and the severity map names registered problems
    only: each schema merges its findings into the result. *)
Lemma lintLogicalSchemas_findings dir wsOpts ignoreTable ignoreSchema opts
      logicalSchemas result :
  (forall name, is_Some (ProblemSeverity opts !! name) -> is_Some (problems !! name)) ->
  schemaIgnored dir ignoreSchema = false ->
  lintLogicalSchemas dir wsOpts ignoreTable ignoreSchema opts logicalSchemas result
  = Some (fold_left Merge (schemaFindings dir wsOpts ignoreTable opts <$> logicalSchemas)
                    result).
Proof.
  intros Hknown Hign. revert result.
  induction logicalSchemas as [|logicalSchema rest IH]; intros result; [done|].
  cbn [lintLogicalSchemas fmap list_fmap fold_left]. rewrite Hign.
  unfold schemaFindings.
  destruct (ExecLogicalSchema logicalSchema wsOpts) as [[schema statementErrors] [err|]].
  - rewrite IH. do 2 f_equal. rewrite Merge_fields. simpl.
    rewrite !app_nil_r. reflexivity.
  - rewrite lintStatementErrors_spec.
    rewrite lintProblems_spec by (by apply range_ProblemSeverity_known).
    rewrite lintObjectDefinitions_spec, IH. do 2 f_equal.
    rewrite Merge_fields. simpl. by rewrite !app_nil_r, <- !app_assoc.
Qed.

Lemma fold_Merge_fields (findings : list Result) (r : Result) :
  fold_left Merge findings r
  = mkResult (Errors r ++ mjoin (Errors <$> findings))
             (Warnings r ++ mjoin (Warnings <$> findings))
             (FormatNotices r ++ mjoin (FormatNotices <$> findings))
             (DebugLogs r ++ mjoin (DebugLogs <$> findings))
             (Exceptions r ++ mjoin (Exceptions <$> findings)).
Proof.
  revert r. induction findings as [|x findings IH]; intros r.
  - simpl. rewrite !app_nil_r. by destruct r.
  - cbn [fold_left]. rewrite IH, Merge_fields, !fmap_cons, !mjoin_cons.
    cbn [Errors Warnings FormatNotices DebugLogs Exceptions].
    by rewrite <- !app_assoc.
Qed.

(** The three ways [LintDir] can go. *)
Lemma LintDir_cases (dir : fs.Dir) (wsOpts : WorkspaceOptions) :
  (exists err, LintDir dir wsOpts = Some (BadConfigResult err))
  \/ (exists ignoreTable ignoreSchema opts,
         mybase.GetRegexp (fs.Config dir) "ignore-table" = (ignoreTable, None)
         /\ mybase.GetRegexp (fs.Config dir) "ignore-schema" = (ignoreSchema, None)
         /\ OptionsForDir dir = (opts, None)
         /\ ((schemaIgnored dir ignoreSchema = true
              /\ (LintDir dir wsOpts = Some emptyResult
                  \/ exists skip, LintDir dir wsOpts = Some (mkResult [] [] [] [skip] [])))
             \/ (schemaIgnored dir ignoreSchema = false
                 /\ LintDir dir wsOpts
                    = Some (fold_left Merge
                              (schemaFindings dir wsOpts ignoreTable opts
                                 <$> fs.LogicalSchemas dir)
                              emptyResult)))).
Proof.
  unfold LintDir.
  destruct (mybase.GetRegexp (fs.Config dir) "ignore-table") as [ignoreTable [e1|]];
    [left; by exists e1|].
  destruct (mybase.GetRegexp (fs.Config dir) "ignore-schema") as [ignoreSchema [e2|]];
    [left; by exists e2|].
  destruct (OptionsForDir dir) as [opts [e3|]] eqn:HO; [left; by exists e3|].
  right. exists ignoreTable, ignoreSchema, opts. do 3 (split; [done|]).
  destruct (schemaIgnored dir ignoreSchema) eqn:Hign.
  - left. split; [done|].
    destruct (fs.LogicalSchemas dir) as [|logicalSchema rest]; [by left|].
    right. rewrite lintLogicalSchemas_ignored by done. by eexists.
  - right. split; [done|]. apply lintLogicalSchemas_findings; [|done].
    by apply (OptionsForDir_keys_known dir opts None).
Qed.

Lemma findings_Exceptions dir wsOpts ignoreTable opts (logicalSchemas : list fs.LogicalSchema) :
  mjoin (Exceptions <$> (schemaFindings dir wsOpts ignoreTable opts <$> logicalSchemas))
  = omap (fun logicalSchema =>
            materializationException dir <$> (ExecLogicalSchema logicalSchema wsOpts).2)
         logicalSchemas.
Proof.
  induction logicalSchemas as [|logicalSchema rest IH]; [done|].
  rewrite !fmap_cons, mjoin_cons, IH. cbn [omap list_omap]. unfold schemaFindings.
  by destruct (ExecLogicalSchema logicalSchema wsOpts) as [[schema statementErrors] [err|]].
Qed.

Lemma length_omap_le {A B : Type} (f : A -> option B) (l : list A) :
  (length (omap f l) <= length l)%nat.
Proof.
  induction l as [|x l IH]; [done|]. cbn [omap list_omap].
  destruct (f x); simpl; lia.
Qed.

(** X5. In a directory whose configuration reads well and whose schemas are
    not ignored, the result of [LintDir] is the merge, in the order of the
    directory, of what each logical schema contributes: one exception when
    it does not materialize; else the annotations of its statement errors
    followed by those of the error-level checkers, the annotations of the
    warning-level checkers, its format notices, and its debug entries. *)
Theorem LintDir_merges_findings (dir : fs.Dir) (wsOpts : WorkspaceOptions)
        (ignoreTable ignoreSchema : option Regexp) (opts : Options) :
  mybase.GetRegexp (fs.Config dir) "ignore-table" = (ignoreTable, None) ->
  mybase.GetRegexp (fs.Config dir) "ignore-schema" = (ignoreSchema, None) ->
  OptionsForDir dir = (opts, None) ->
  schemaIgnored dir ignoreSchema = false ->
  LintDir dir wsOpts
  = Some (fold_left Merge
                    (schemaFindings dir wsOpts ignoreTable opts <$> fs.LogicalSchemas dir)
                    emptyResult).
Proof.
  intros HT HS HO Hign. unfold LintDir. rewrite HT, HS, HO.
  apply lintLogicalSchemas_findings; [|exact Hign].
  by apply (OptionsForDir_keys_known dir opts None).
Qed.

(** X6. [LintDir] never panics: the only call that could, the call of the
    checker registered under a name of the severity map, always finds one,
    because [OptionsForDir] writes checked names only. *)
Theorem LintDir_never_panics (dir : fs.Dir) (wsOpts : WorkspaceOptions) :
  exists result, LintDir dir wsOpts = Some result.
Proof.
  destruct (LintDir_cases dir wsOpts)
    as [[err ->]|(ignoreTable & ignoreSchema & opts & _ & _ & _ & Hcase)];
    [by eexists|].
  destruct Hcase as [(_ & [->|[skip ->]])|(_ & ->)]; by eexists.
Qed.


(** X8. Under the same conditions the exceptions of the result are, in the
    order of the directory, one for each logical schema that does not
    materialize, naming the directory and the error; a schema that
    materializes adds none. *)
Theorem LintDir_exceptions (dir : fs.Dir) (wsOpts : WorkspaceOptions)
        (ignoreTable ignoreSchema : option Regexp) (opts : Options) :
  mybase.GetRegexp (fs.Config dir) "ignore-table" = (ignoreTable, None) ->
  mybase.GetRegexp (fs.Config dir) "ignore-schema" = (ignoreSchema, None) ->
  OptionsForDir dir = (opts, None) ->
  schemaIgnored dir ignoreSchema = false ->
  exists result,
    LintDir dir wsOpts = Some result
    /\ Exceptions result
       = omap (fun logicalSchema =>
                 match (ExecLogicalSchema logicalSchema wsOpts).2 with
                 | Some err =>
                     Some (Errorf ("Skipping schema in " ++ fs.RelPath dir
                                     ++ " due to error: " ++ Error err))
                 | None => None
                 end)
              (fs.LogicalSchemas dir)
    /\ (length (Exceptions result) <= length (fs.LogicalSchemas dir))%nat.
Proof.
  intros HT HS HO Hign. eexists. split.
  - unfold LintDir. rewrite HT, HS, HO.
    apply lintLogicalSchemas_findings; [|exact Hign].
    by apply (OptionsForDir_keys_known dir opts None).
  - rewrite fold_Merge_fields. cbn [Exceptions emptyResult app].
    rewrite findings_Exceptions. split; [done|]. apply length_omap_le.
Qed.

(** X9. A [ConfigError] never comes with findings: a result of [LintDir]
    that holds one among its exceptions holds nothing else. *)
Theorem LintDir_ConfigError_alone (dir : fs.Dir) (wsOpts : WorkspaceOptions)
        (result : Result) (msg : string) :
  LintDir dir wsOpts = Some result ->
  ConfigError msg ∈ Exceptions result ->
  result = mkResult [] [] [] [] [ConfigError msg].
Proof.
  intros Hrun Hin.
  destruct (LintDir_cases dir wsOpts)
    as [[err Hbad]|(ignoreTable & ignoreSchema & opts & _ & _ & _ & Hcase)].
  - rewrite Hbad in Hrun. injection Hrun as <-.
    rewrite BadConfigResult_shape in *. simpl in Hin.
    apply list_elem_of_singleton in Hin. by rewrite Hin.
  - destruct Hcase as [(_ & [Heq|[skip Heq]])|(_ & Heq)];
      rewrite Heq in Hrun; injection Hrun as <-.
    + by apply elem_of_nil in Hin.
    + by apply elem_of_nil in Hin.
    + rewrite fold_Merge_fields in Hin. cbn [Exceptions emptyResult app] in Hin.
      rewrite findings_Exceptions in Hin.
      apply list_elem_of_omap in Hin as (logicalSchema & _ & Hexc).
      destruct ((ExecLogicalSchema logicalSchema wsOpts).2); discriminate Hexc.
Qed.

Lemma omap_all_None {A B : Type} (f : A -> option B) (l : list A) :
  (forall x, f x = None) -> omap f l = [].
Proof.
  intros Hnone. induction l as [|x l IH]; [done|].
  cbn [omap list_omap]. by rewrite Hnone.
Qed.

(** X10. Debug entries come from the two ignore options only: with neither
    ignore-table nor ignore-schema giving an expression, the result of
    [LintDir] has no debug entry. *)
Theorem LintDir_no_pattern_no_debug (dir : fs.Dir) (wsOpts : WorkspaceOptions)
        (result : Result) :
  (mybase.GetRegexp (fs.Config dir) "ignore-table").1 = None ->
  (mybase.GetRegexp (fs.Config dir) "ignore-schema").1 = None ->
  LintDir dir wsOpts = Some result ->
  DebugLogs result = [].
Proof.
  intros HT HS Hrun.
  destruct (LintDir_cases dir wsOpts)
    as [[err Hbad]|(ignoreTable & ignoreSchema & opts & HT' & HS' & _ & Hcase)].
  - rewrite Hbad in Hrun. by injection Hrun as <-.
  - rewrite HT' in HT. rewrite HS' in HS. simpl in HT, HS. subst ignoreTable ignoreSchema.
    destruct Hcase as [(Hign & _)|(_ & Heq)]; [done|].
    rewrite Heq in Hrun. injection Hrun as <-.
    rewrite fold_Merge_fields. cbn [DebugLogs emptyResult app].
    apply join_nil_2, Forall_fmap, Forall_fmap, Forall_forall.
    intros logicalSchema _. unfold schemaFindings. simpl.
    destruct (ExecLogicalSchema logicalSchema wsOpts) as [[schema statementErrors] [err|]];
      [done|].
    simpl. rewrite !omap_all_None; [done|intros [key text]|intros stmtErr].
    + unfold ignoredTableLog. simpl. by rewrite bool_decide_eq_false_2 by (by intros [_ ?]).
    + unfold statementErrorLog. simpl. by rewrite bool_decide_eq_false_2 by (by intros [_ ?]).
Qed.

(** X11. Every format notice in a result of [LintDir] carries the summary
    "SQL statement should be reformatted" and a line offset of zero. *)
Theorem LintDir_format_notices_uniform (dir : fs.Dir) (wsOpts : WorkspaceOptions)
        (result : Result) (a : Annotation) :
  LintDir dir wsOpts = Some result ->
  a ∈ FormatNotices result ->
  Summary a = "SQL statement should be reformatted" /\ LineOffset a = 0.
Proof.
  intros Hrun Hin.
  destruct (LintDir_cases dir wsOpts)
    as [[err Hbad]|(ignoreTable & ignoreSchema & opts & _ & _ & _ & Hcase)].
  - rewrite Hbad in Hrun. injection Hrun as <-. by apply elem_of_nil in Hin.
  - destruct Hcase as [(_ & [Heq|[skip Heq]])|(_ & Heq)];
      rewrite Heq in Hrun; injection Hrun as <-.
    + by apply elem_of_nil in Hin.
    + by apply elem_of_nil in Hin.
    + rewrite fold_Merge_fields in Hin. cbn [FormatNotices emptyResult app] in Hin.
      apply list_elem_of_join in Hin as (notices & Hin & Hnotices).
      apply list_elem_of_fmap in Hnotices as (findings & -> & Hfindings).
      apply list_elem_of_fmap in Hfindings as (logicalSchema & -> & _).
      unfold schemaFindings in Hin.
      destruct (ExecLogicalSchema logicalSchema wsOpts)
        as [[schema statementErrors] [err|]]; simpl in Hin;
        [by apply elem_of_nil in Hin|].
      apply list_elem_of_omap in Hin as ([key text] & _ & Hnotice).
      unfold reformatNotice in Hnotice.
      repeat case_bool_decide; try discriminate Hnotice.
      by injection Hnotice as <-.
Qed.

Lemma OptionsForDir_ok_map (dir : fs.Dir) (opts : Options) :
  OptionsForDir dir = (opts, None) ->
  ProblemSeverity opts
  = recorded (asWarnings (warningsOf dir) ++ asErrors (errorsOf dir))%list ∅.
Proof.
  intros Hopts.
  destruct (OptionsForDir_spec dir)
    as [(_ & _ & Heq)|[(? & ? & ? & _ & _ & _ & Heq)|(? & ? & ? & _ & _ & _ & _ & Heq)]];
    rewrite Heq in Hopts; [|done..].
  by injection Hopts as <-.
Qed.

Lemma problemAnnotations_other_severity schema logicalSchema opts sev entries :
  Forall (fun entry => entry.2 <> sev) entries ->
  problemAnnotations schema logicalSchema opts sev entries = [].
Proof.
  induction 1 as [|entry entries Hne _ IH]; [done|].
  unfold problemAnnotations in *. cbn [flat_map]. rewrite IH.
  by rewrite bool_decide_eq_false_2.
Qed.

(** X12. When every name among the warnings is among the errors as well
    (in particular when option warnings is empty), no checker runs at
    warning level and the result of [LintDir] has no warning. *)
Theorem LintDir_no_warnings (dir : fs.Dir) (wsOpts : WorkspaceOptions) (result : Result) :
  (forall name, name ∈ ToLower <$> warningsOf dir -> name ∈ ToLower <$> errorsOf dir) ->
  LintDir dir wsOpts = Some result ->
  Warnings result = [].
Proof.
  intros Hsub Hrun.
  destruct (LintDir_cases dir wsOpts)
    as [[err Hbad]|(ignoreTable & ignoreSchema & opts & _ & _ & HO & Hcase)].
  - rewrite Hbad in Hrun. by injection Hrun as <-.
  - destruct Hcase as [(_ & [Heq|[skip Heq]])|(_ & Heq)];
      rewrite Heq in Hrun; injection Hrun as <-; [done..|].
    rewrite fold_Merge_fields. cbn [Warnings emptyResult app].
    apply join_nil_2, Forall_fmap, Forall_fmap, Forall_forall.
    intros logicalSchema _. unfold schemaFindings. simpl.
    destruct (ExecLogicalSchema logicalSchema wsOpts) as [[schema statementErrors] [err|]];
      [done|].
    simpl. apply problemAnnotations_other_severity, Forall_forall.
    intros [name sev] Hin. simpl. intros ->.
    rewrite (range_perm order) in Hin. apply elem_of_map_to_list in Hin.
    rewrite (OptionsForDir_ok_map dir opts HO), recorded_two_lists in Hin.
    case_bool_decide as HinE; [discriminate Hin|].
    case_bool_decide as HinW; [|discriminate Hin].
    by apply HinE, Hsub.
Qed.

Lemma lintProblems_keeps schema logicalSchema opts entries result result' :
  lintProblems schema logicalSchema opts entries result = Some result' ->
  keeps result result'.
Proof.
  revert result. induction entries as [|[problemName severity] entries IH];
    intros result; cbn [lintProblems].
  - by intros [= <-].
  - destruct (problems !! problemName) as [detector|]; [|done].
    intros Hrest. apply IH in Hrest. etrans; [|exact Hrest].
    case_bool_decide; [apply keeps_appendWarnings|apply keeps_appendErrors].
Qed.

(** X13. The loop over the logical schemas only appends: whatever the
    options, the patterns and the workspace, a run that returns keeps every
    entry it started from, field by field and in order. *)
Theorem lintLogicalSchemas_append_only (dir : fs.Dir) (wsOpts : WorkspaceOptions)
        (ignoreTable ignoreSchema : option Regexp) (opts : Options)
        (logicalSchemas : list fs.LogicalSchema) (result result' : Result) :
  lintLogicalSchemas dir wsOpts ignoreTable ignoreSchema opts logicalSchemas result
  = Some result' ->
  keeps result result'.
Proof.
  revert result. induction logicalSchemas as [|logicalSchema rest IH]; intros result.
  - by intros [= <-].
  - cbn [lintLogicalSchemas]. destruct (schemaIgnored dir ignoreSchema).
    { intros [= <-]. apply keeps_appendDebugLogs. }
    destruct (ExecLogicalSchema logicalSchema wsOpts) as [[schema statementErrors] [err|]].
    + intros Hrest. apply IH in Hrest.
      etrans; [apply keeps_appendExceptions|exact Hrest].
    + destruct (lintProblems _ _ _ _ _) as [checked|] eqn:Hchecked; [|done].
      intros Hrest. apply IH in Hrest. apply lintProblems_keeps in Hchecked.
      destruct (lintStatementErrors_frame ignoreTable statementErrors result) as (Hk1 & _).
      etrans; [exact Hk1|]. etrans; [exact Hchecked|]. etrans; [|exact Hrest].
      rewrite lintObjectDefinitions_spec.
      repeat split; simpl; try done; by apply prefix_app_r.
Qed.

Lemma statementError_cases (ignoreTable : option Regexp)
      (stmtErr : workspace.StatementError) :
  (statementErrorAnnotation ignoreTable stmtErr = None
   /\ is_Some (statementErrorLog ignoreTable stmtErr))
  \/ (~ (workspace.ObjectType stmtErr = ObjectTypeTable
         /\ tableIgnored ignoreTable (workspace.ObjectName stmtErr) = true)
      /\ statementErrorAnnotation ignoreTable stmtErr
         = Some (mkAnnotation (workspace.Statement stmtErr) 0
                              "SQL statement returned an error"
                              (Error (workspace.Err stmtErr)))
      /\ statementErrorLog ignoreTable stmtErr = None).
Proof.
  unfold statementErrorAnnotation, statementErrorLog.
  case_bool_decide; [left|right]; by eauto.
Qed.

(** X14. The loop over the statement errors accounts for each of them once:
    it adds either an error annotation or a debug entry. When none of them
    is a table matched by ignore-table, every one is reported, in order,
    with the error's text as message, and no debug entry is added. *)
Theorem statement_errors_accounted (ignoreTable : option Regexp)
        (statementErrors : list workspace.StatementError) (result : Result) :
  let result' := fold_left (lintStatementError ignoreTable) statementErrors result in
  (length (Errors result') + length (DebugLogs result')
   = length (Errors result) + length (DebugLogs result) + length statementErrors)%nat
  /\ (Forall (fun stmtErr =>
                ~ (workspace.ObjectType stmtErr = ObjectTypeTable
                   /\ tableIgnored ignoreTable (workspace.ObjectName stmtErr) = true))
             statementErrors ->
      Errors result'
      = (Errors result
           ++ ((fun stmtErr => mkAnnotation (workspace.Statement stmtErr) 0
                                            "SQL statement returned an error"
                                            (Error (workspace.Err stmtErr)))
                 <$> statementErrors))%list
      /\ DebugLogs result' = DebugLogs result).
Proof.
  intros result'. subst result'. rewrite lintStatementErrors_spec. simpl. split.
  - rewrite !length_app.
    assert (length (omap (statementErrorAnnotation ignoreTable) statementErrors)
            + length (omap (statementErrorLog ignoreTable) statementErrors)
            = length statementErrors)%nat as Hcount; [|lia].
    induction statementErrors as [|stmtErr errs IH]; [done|].
    cbn [omap list_omap].
    destruct (statementError_cases ignoreTable stmtErr) as [[-> [log ->]]|(_ & -> & ->)];
      simpl; lia.
  - intros Hnone.
    assert (omap (statementErrorAnnotation ignoreTable) statementErrors
            = (fun stmtErr => mkAnnotation (workspace.Statement stmtErr) 0
                                           "SQL statement returned an error"
                                           (Error (workspace.Err stmtErr)))
                <$> statementErrors
            /\ omap (statementErrorLog ignoreTable) statementErrors = [])
      as [-> ->]; [|by rewrite app_nil_r].
    induction Hnone as [|stmtErr errs Hne _ [IH1 IH2]]; [done|].
    cbn [omap list_omap]. rewrite fmap_cons.
    destruct (statementError_cases ignoreTable stmtErr) as [[Ha [log Hl]]|(_ & -> & ->)].
    + exfalso. unfold statementErrorAnnotation in Ha. by case_bool_decide.
    + by rewrite IH1, IH2.
Qed.

(** X15. A directory is passed over exactly when ignore-schema gives an
    expression and some literal name of option schema matches it; without an
    expression, or without literal names, it never is. *)
Theorem schemaIgnored_false_iff (dir : fs.Dir) (ignoreSchema : option Regexp) :
  (schemaIgnored dir ignoreSchema = false
   <-> forall re, ignoreSchema = Some re ->
                  Forall (fun schemaName => MatchString re schemaName = false)
                         (mybase.GetSlice (fs.Config dir) "schema" "," true))
  /\ schemaIgnored dir None = false
  /\ (mybase.GetSlice (fs.Config dir) "schema" "," true = [] ->
      schemaIgnored dir ignoreSchema = false).
Proof.
  split; [|split].
  - split.
    + intros Hfalse re ->. apply Forall_forall. intros schemaName Hin.
      destruct (MatchString re schemaName) eqn:Hmatch; [|done].
      assert (schemaIgnored dir (Some re) = true) as Htrue; [|congruence].
      apply schemaIgnored_true. by exists re, schemaName.
    + intros Hall. destruct (schemaIgnored dir ignoreSchema) eqn:Hign; [|done].
      apply schemaIgnored_true in Hign as (re & schemaName & -> & Hin & Hmatch).
      specialize (Hall re eq_refl). rewrite Forall_forall in Hall.
      specialize (Hall schemaName Hin). congruence.
  - done.
  - intros Hempty. unfold schemaIgnored. rewrite Hempty. by destruct ignoreSchema.
Qed.
End Linter.

(** ** Go's [int] *)

Lemma GoInt_wrap_in_range (z : Z) : GoInt.in_range (GoInt.wrap z).
Proof.
  unfold GoInt.in_range, GoInt.wrap, GoInt.min_int, GoInt.max_int, GoInt.width.
  pose proof (Z.mod_pos_bound (z + 2 ^ 63) (2 ^ 64) ltac:(lia)). lia.
Qed.

Lemma GoInt_wrap_small (z : Z) : GoInt.in_range z -> GoInt.wrap z = z.
Proof.
  unfold GoInt.in_range, GoInt.wrap, GoInt.min_int, GoInt.max_int, GoInt.width.
  intros Hz. rewrite Z.mod_small; lia.
Qed.

Lemma GoInt_add_exact (x y : Z) : GoInt.in_range (x + y) -> GoInt.add x y = x + y.
Proof. apply GoInt_wrap_small. Qed.

(** ** Annotations, results, [BadConfigResult] *)

(** C5, as the code has it. For an annotation whose [Statement] is not nil,
    [MessageWithLocation] renders exactly one of three forms, chosen in this
    order: the message followed by the full SQL when the file is empty or the
    line number is zero; else file, line and column before the message when
    the line offset is zero and the column is greater than 1; else file and
    the line plus the offset (Go's [int] addition, the plain sum whenever it
    fits) before the message. *)
Theorem MessageWithLocation_forms (a : Annotation) (st : fs.Statement) :
  Statement a = Some st ->
  (fs.File st = "" \/ fs.LineNo st = 0 ->
   MessageWithLocation a = Some (Message a ++ " [Full SQL: " ++ fs.Text st ++ "]"))
  /\ (fs.File st <> "" -> fs.LineNo st <> 0 -> LineOffset a = 0 -> fs.CharNo st > 1 ->
      MessageWithLocation a
      = Some (fs.File st ++ ":" ++ fmt_d (fs.LineNo st) ++ ":" ++ fmt_d (fs.CharNo st)
                ++ ": " ++ Message a))
  /\ (fs.File st <> "" -> fs.LineNo st <> 0 -> LineOffset a <> 0 \/ fs.CharNo st <= 1 ->
      MessageWithLocation a
      = Some (fs.File st ++ ":" ++ fmt_d (GoInt.add (fs.LineNo st) (LineOffset a))
                ++ ": " ++ Message a))
  /\ (GoInt.in_range (fs.LineNo st + LineOffset a) ->
      GoInt.add (fs.LineNo st) (LineOffset a) = fs.LineNo st + LineOffset a).
Proof.
  intros Hst. unfold MessageWithLocation. rewrite Hst.
  split; [|split; [|split]].
  - intros [Hfile|Hline].
    + by rewrite (bool_decide_eq_true_2 _ Hfile).
    + rewrite (bool_decide_eq_true_2 _ Hline). by rewrite orb_true_r.
  - intros Hfile Hline Hoff Hcol.
    rewrite (bool_decide_eq_false_2 _ Hfile), (bool_decide_eq_false_2 _ Hline).
    by rewrite (bool_decide_eq_true_2 _ Hoff), (bool_decide_eq_true_2 _ Hcol).
  - intros Hfile Hline Hrest.
    rewrite (bool_decide_eq_false_2 _ Hfile), (bool_decide_eq_false_2 _ Hline).
    destruct Hrest as [Hoff|Hcol].
    + by rewrite (bool_decide_eq_false_2 _ Hoff).
    + rewrite (bool_decide_eq_false_2 (fs.CharNo st > 1)) by lia.
      by rewrite andb_false_r.
  - apply GoInt_add_exact.
Qed.

(** C6. [Merge] appends each of the five fields of [other] to the same field
    of the receiver: the receiver's entries first and then [other]'s, each
    group in its order, so that every field has as many entries as the two
    operands together. *)
Theorem Merge_appends (r other : Result) :
  Merge r other
  = mkResult (Errors r ++ Errors other) (Warnings r ++ Warnings other)
             (FormatNotices r ++ FormatNotices other)
             (DebugLogs r ++ DebugLogs other) (Exceptions r ++ Exceptions other)
  /\ length (Errors (Merge r other)) = (length (Errors r) + length (Errors other))%nat
  /\ length (Warnings (Merge r other)) = (length (Warnings r) + length (Warnings other))%nat
  /\ length (FormatNotices (Merge r other))
     = (length (FormatNotices r) + length (FormatNotices other))%nat
  /\ length (DebugLogs (Merge r other)) = (length (DebugLogs r) + length (DebugLogs other))%nat
  /\ length (Exceptions (Merge r other))
     = (length (Exceptions r) + length (Exceptions other))%nat.
Proof.
  split; [reflexivity|].
  unfold Merge, appendErrors, appendWarnings, appendFormatNotices, appendDebugLogs,
    appendExceptions; simpl.
  by rewrite !length_app.
Qed.

(** C10. [BadConfigResult] returns a result whose only content is one
    exception: a [ConfigError] whose text is that of [err], which is [err]
    itself when [err] is a [ConfigError] already. *)
Theorem BadConfigResult_single_ConfigError (err : error) :
  BadConfigResult err = mkResult [] [] [] [] [ConfigError (Error err)]
  /\ Error <$> Exceptions (BadConfigResult err) = [Error err]
  /\ match err with
     | ConfigError _ => Exceptions (BadConfigResult err) = [err]
     | OtherError msg => Exceptions (BadConfigResult err) = [ConfigError msg]
     end.
Proof.
  split; [apply BadConfigResult_shape|].
  destruct err as [msg|msg]; split; reflexivity.
Qed.

(** ** Runs on the sample installation *)

Abbreviation sampleOptionsForDir :=
  (OptionsForDir Sample.ToLower range_canonical Sample.problems).

Abbreviation sampleRun :=
  (lintLogicalSchemas Sample.ObjectDefinitions Sample.ObjectTypeTable
     Sample.ObjectKey_String Sample.SplitTextBody Sample.ExecLogicalSchema
     range_canonical Sample.problems).

Abbreviation sampleLintDir :=
  (LintDir Sample.ToLower Sample.ObjectDefinitions Sample.ObjectTypeTable
     Sample.ObjectKey_String Sample.SplitTextBody Sample.ExecLogicalSchema
     range_canonical Sample.problems).

(** C1, as the claim has it, fails: with two logical schemas and a matching
    schema name, skipping the first schema and moving on to the second would
    leave two debug entries (the second schema matches as well); the code
    returns at the first schema, with one. *)
Lemma LintDir_ignore_schema_counterexample :
  let skip := "Skipping schema in analytics because ignore-schema='^analytics'" in
  schemaIgnored Sample.dirIgnored (Some (Sample.prefixRegexp "analytics")) = true
  /\ fs.LogicalSchemas Sample.dirIgnored = [Sample.usersSchema; Sample.postsSchema]
  /\ sampleLintDir Sample.dirIgnored tt = Some (mkResult [] [] [] [skip] [])
  /\ sampleRun Sample.dirIgnored tt None (Some (Sample.prefixRegexp "analytics"))
               (sampleOptionsForDir Sample.dirIgnored).1
               [Sample.usersSchema; Sample.postsSchema] emptyResult
     <> sampleRun Sample.dirIgnored tt None (Some (Sample.prefixRegexp "analytics"))
                  (sampleOptionsForDir Sample.dirIgnored).1
                  [Sample.postsSchema] (appendDebugLogs emptyResult [skip]).
Proof.
  intros skip. split; [reflexivity|]. split; [reflexivity|]. split; [reflexivity|].
  rewrite !lintLogicalSchemas_ignored by reflexivity.
  intros Heq. injection Heq as Heq. discriminate Heq.
Qed.

Lemma LintDir_ignore_schema_returns_witness :
  sampleLintDir Sample.dirIgnored tt
  = Some (mkResult [] [] []
                   ["Skipping schema in analytics because ignore-schema='^analytics'"] []).
Proof.
  apply (@LintDir_ignore_schema_returns
           Sample.ToLower Sample.Schema Sample.ObjectDefinitions Sample.ObjectTypeTable
           Sample.ObjectKey_String Sample.SplitTextBody unit Sample.ExecLogicalSchema
           range_canonical Sample.problems Sample.dirIgnored tt None
           (Sample.prefixRegexp "analytics") (sampleOptionsForDir Sample.dirIgnored).1
           "analytics").
  - reflexivity.
  - reflexivity.
  - vm_compute. reflexivity.
  - apply list_elem_of_here.
  - reflexivity.
Defined.

Lemma LintDir_bad_config_witness :
  exists err,
    sampleLintDir Sample.dirBadPattern tt = Some (BadConfigResult err)
    /\ BadConfigResult err
       = mkResult [] [] [] []
           [ConfigError "error parsing regexp: missing argument to repetition operator: `+`"].
Proof.
  destruct (@LintDir_bad_config
              Sample.ToLower Sample.Schema Sample.ObjectDefinitions Sample.ObjectTypeTable
              Sample.ObjectKey_String Sample.SplitTextBody unit Sample.ExecLogicalSchema
              range_canonical Sample.problems Sample.dirBadPattern tt)
    as (err & Hfirst & Hrun & Hshape).
  - left. simpl. discriminate.
  - exists err. split; [exact Hrun|].
    simpl in Hfirst. injection Hfirst as ->. reflexivity.
Defined.

Lemma OptionsForDir_unknown_name_witness :
  (exists opts msg,
      sampleOptionsForDir Sample.dirBadWarnings = (opts, Some (ConfigError msg))
      /\ String.prefix "Option warnings " msg = true)
  /\ (exists opts msg,
         sampleOptionsForDir Sample.dirBadErrors = (opts, Some (ConfigError msg))
         /\ String.prefix "Option errors " msg = true).
Proof.
  split.
  - destruct (proj1 (@OptionsForDir_unknown_name Sample.ToLower Sample.Schema range_canonical
                       Sample.problems Sample.dirBadWarnings))
      as (opts & msg & Hrun & _ & Hprefix & _).
    + apply Exists_cons_tl, Exists_cons_hd. vm_compute. discriminate.
    + by exists opts, msg.
  - destruct (proj2 (@OptionsForDir_unknown_name Sample.ToLower Sample.Schema range_canonical
                       Sample.problems Sample.dirBadErrors))
      as (opts & msg & Hrun & _ & Hprefix & _).
    + repeat apply Forall_cons_2; [vm_compute; reflexivity..|apply Forall_nil_2].
    + apply Exists_cons_tl, Exists_cons_hd. vm_compute. discriminate.
    + by exists opts, msg.
Defined.

Lemma OptionsForDir_errors_win_witness :
  ProblemSeverity (sampleOptionsForDir Sample.dirBoth).1 !! "no-pk" = Some SeverityError.
Proof.
  apply (@OptionsForDir_errors_win Sample.ToLower Sample.Schema range_canonical
           Sample.problems Sample.dirBoth).
  - vm_compute. reflexivity.
  - apply list_elem_of_here.
  - apply list_elem_of_here.
Defined.

Lemma OptionsForDir_error_not_atomic_witness :
  AllowedCharSets (sampleOptionsForDir Sample.dirBadWarnings).1 = ["latin1"; "utf8mb4"]
  /\ AllowedEngines (sampleOptionsForDir Sample.dirBadWarnings).1 = ["innodb"]
  /\ ProblemSeverity (sampleOptionsForDir Sample.dirBadWarnings).1 !! "no-pk"
     = Some SeverityWarning.
Proof.
  destruct (@OptionsForDir_error_not_atomic
              Sample.ToLower Sample.Schema range_canonical Sample.problems
              Sample.dirBadWarnings (sampleOptionsForDir Sample.dirBadWarnings).1
              (ConfigError
                 ("Option warnings must be a comma-separated list including these values: "
                    ++ "no-pk, bad-charset, bad-engine")))
    as (_ & Hcharsets & Hengines & _).
  - vm_compute. reflexivity.
  - split; [exact Hcharsets|]. split; [exact Hengines|]. vm_compute. reflexivity.
Defined.

Lemma LintDir_materialization_failure_witness :
  exists final,
    sampleLintDir Sample.dirThree tt = Some final
    /\ Exceptions final
       = [OtherError "Skipping schema in app due to error: no CREATE statements to run"]
    /\ length (Warnings final) = 2%nat.
Proof.
  destruct (@LintDir_materialization_failure
              Sample.ToLower Sample.Schema Sample.ObjectDefinitions Sample.ObjectTypeTable
              Sample.ObjectKey_String Sample.SplitTextBody unit Sample.ExecLogicalSchema
              range_canonical Sample.problems Sample.dirThree tt None None
              (sampleOptionsForDir Sample.dirThree).1
              [Sample.usersSchema] [Sample.postsSchema] Sample.emptySchema
              ∅ [] (OtherError "no CREATE statements to run"))
    as (collected & final & _ & _ & _ & Hrun & _ & _).
  - reflexivity.
  - reflexivity.
  - vm_compute. reflexivity.
  - reflexivity.
  - reflexivity.
  - reflexivity.
  - exists final. split; [exact Hrun|].
    vm_compute in Hrun. injection Hrun as <-. split; reflexivity.
Defined.

Lemma LintDir_format_notices_witness :
  exists final,
    sampleLintDir Sample.dirThree tt = Some final
    /\ FormatNotices final
       = [mkAnnotation (Some Sample.postsStmt) 0 "SQL statement should be reformatted"
                       "CREATE TABLE posts ( id int);"].
Proof.
  destruct (@LintDir_format_notices
              Sample.ToLower Sample.Schema Sample.ObjectDefinitions Sample.ObjectTypeTable
              Sample.ObjectKey_String Sample.SplitTextBody unit Sample.ExecLogicalSchema
              range_canonical Sample.problems Sample.dirThree tt None None
              (sampleOptionsForDir Sample.dirThree).1
              [Sample.usersSchema; Sample.emptySchema] [] Sample.postsSchema
              (Sample.ExecLogicalSchema Sample.postsSchema tt).1.1 [])
    as (_ & _ & _ & collected & linted & final & Hbefore & _ & Hafter & Hrun & Hnotices & _).
  - reflexivity.
  - reflexivity.
  - vm_compute. reflexivity.
  - reflexivity.
  - reflexivity.
  - vm_compute. reflexivity.
  - exists final. split; [exact Hrun|].
    cbn [lintLogicalSchemas] in Hafter. injection Hafter as <-.
    rewrite Hnotices. vm_compute in Hbefore. injection Hbefore as <-.
    vm_compute. reflexivity.
Defined.

(** C5, as the claim has it, fails for an annotation whose [Statement] is
    nil ([LintDir] stores in a notice the pointer it reads from [Creates],
    which is nil for a key the map does not hold): the first read through
    the pointer panics and nothing is rendered. *)
Lemma MessageWithLocation_nil_counterexample :
  let a := mkAnnotation None 0 "SQL statement should be reformatted"
                        "CREATE TABLE users (id int)" in
  MessageWithLocation a = None
  /\ ~ (exists text, MessageWithLocation a = Some text).
Proof.
  intros a. split; [reflexivity|]. intros [text Htext]. discriminate Htext.
Qed.

Lemma MessageWithLocation_forms_witness :
  MessageWithLocation
    (mkAnnotation (Some (fs.mkStatement "" 5 3 "CREATE TABLE t (id int);"))
                  0 "summary" "bad")
  = Some "bad [Full SQL: CREATE TABLE t (id int);]"
  /\ MessageWithLocation
       (mkAnnotation (Some (fs.mkStatement "a.sql" 5 3 "CREATE TABLE t (id int);"))
                     0 "summary" "bad")
     = Some "a.sql:5:3: bad"
  /\ MessageWithLocation
       (mkAnnotation (Some (fs.mkStatement "a.sql" 5 3 "CREATE TABLE t (id int);"))
                     2 "summary" "bad")
     = Some "a.sql:7: bad".
Proof.
  split; [|split].
  - apply (MessageWithLocation_forms
             (mkAnnotation (Some (fs.mkStatement "" 5 3 "CREATE TABLE t (id int);"))
                           0 "summary" "bad") _ eq_refl).
    by left.
  - apply (MessageWithLocation_forms
             (mkAnnotation (Some (fs.mkStatement "a.sql" 5 3 "CREATE TABLE t (id int);"))
                           0 "summary" "bad") _ eq_refl); simpl; [discriminate|lia|reflexivity|lia].
  - apply (MessageWithLocation_forms
             (mkAnnotation (Some (fs.mkStatement "a.sql" 5 3 "CREATE TABLE t (id int);"))
                           2 "summary" "bad") _ eq_refl); simpl; [discriminate|lia|left; lia].
Defined.

(** ** Further properties of results and annotations *)

(** X16. Results form a monoid under [Merge]: merging is associative and
    the empty result is neutral on both sides, so the order in which a
    caller folds the results of a tree of directories does not matter as
    long as their sequence is kept. *)
Theorem Merge_monoid (r1 r2 r3 : Result) :
  Merge (Merge r1 r2) r3 = Merge r1 (Merge r2 r3)
  /\ Merge emptyResult r1 = r1
  /\ Merge r1 emptyResult = r1.
Proof.
  split; [apply Merge_assoc|].
  split; [apply Merge_empty_l|apply Merge_empty_r].
Qed.

(** X17. [MessageWithLocation] panics exactly on an annotation whose
    statement is nil; whenever it returns, the text it returns contains the
    annotation's message. *)
Theorem MessageWithLocation_defined (a : Annotation) :
  (MessageWithLocation a = None <-> Statement a = None)
  /\ forall text,
      MessageWithLocation a = Some text ->
      exists pre post, text = pre ++ Message a ++ post.
Proof.
  unfold MessageWithLocation. destruct (Statement a) as [st|].
  - split.
    + split; intros H; [|discriminate H].
      destruct (_ || _); [discriminate H|]. destruct (_ && _); discriminate H.
    + intros text Htext. destruct (_ || _).
      { injection Htext as <-. by exists "", (" [Full SQL: " ++ fs.Text st ++ "]"). }
      destruct (_ && _); injection Htext as <-.
      * exists (fs.File st ++ ":" ++ fmt_d (fs.LineNo st) ++ ":" ++ fmt_d (fs.CharNo st)
                  ++ ": "), "".
        by rewrite string_app_empty_r, !string_app_assoc.
      * exists (fs.File st ++ ":" ++ fmt_d (GoInt.add (fs.LineNo st) (LineOffset a))
                  ++ ": "), "".
        by rewrite string_app_empty_r, !string_app_assoc.
  - split; [done|]. intros text Htext. discriminate Htext.
Qed.

(** X18. [BadConfigResult] looks at the text of the error only: two errors
    give the same result exactly when their texts agree, whatever their
    dynamic types, and the exception it stores is always a [ConfigError]. *)
Theorem BadConfigResult_text_only (err1 err2 : error) :
  (BadConfigResult err1 = BadConfigResult err2 <-> Error err1 = Error err2)
  /\ Forall (fun exception => isConfigError exception = true)
            (Exceptions (BadConfigResult err1)).
Proof.
  rewrite !BadConfigResult_shape. split.
  - split.
    + by intros [= ->].
    + by intros ->.
  - simpl. by repeat constructor.
Qed.

(** ** The order of [range] over maps *)

Section RangeOrder.

Variable ToLower : string -> string.
Context {Schema : Type}.
Variable ObjectDefinitions : Schema -> gmap tengo.ObjectKey string.
Variable ObjectTypeTable : tengo.ObjectType.
Variable ObjectKey_String : tengo.ObjectKey -> string.
Variable SplitTextBody : option fs.Statement -> string * string.
Context {WorkspaceOptions : Type}.
Variable ExecLogicalSchema :
  fs.LogicalSchema -> WorkspaceOptions ->
  Schema * list workspace.StatementError * option error.
Variable problems : gmap string (Schema -> fs.LogicalSchema -> Options -> list Annotation).

(** Two orders in which [range] may visit the maps. *)
Variables order1 order2 : MapRange.






End RangeOrder.

(** ** Further runs on the sample installation *)

Abbreviation sampleFindings :=
  (schemaFindings Sample.ObjectDefinitions Sample.ObjectTypeTable Sample.ObjectKey_String
     Sample.SplitTextBody Sample.ExecLogicalSchema range_canonical Sample.problems).

Lemma OptionsForDir_success_witness :
  exists opts,
    sampleOptionsForDir Sample.dirClean = (opts, None)
    /\ ProblemSeverity opts !! "no-pk" = Some SeverityError
    /\ ProblemSeverity opts !! "bad-charset" = Some SeverityWarning
    /\ ProblemSeverity opts !! "bad-engine" = Some SeverityError
    /\ ProblemSeverity opts !! "NO-PK" = None.
Proof.
  destruct (@OptionsForDir_success Sample.ToLower Sample.Schema range_canonical
              Sample.problems Sample.dirClean)
    as (opts & Hrun & _ & _ & Hmap).
  - repeat apply Forall_cons_2; [vm_compute; reflexivity..|apply Forall_nil_2].
  - repeat apply Forall_cons_2; [vm_compute; reflexivity..|apply Forall_nil_2].
  - exists opts. split; [exact Hrun|]. rewrite !Hmap. by vm_compute.
Defined.

Lemma OptionsForDir_keys_checked_witness :
  problemExists Sample.problems "no-pk" = true
  /\ "no-pk" ∈ Sample.ToLower <$> (warningsOf Sample.dirBadWarnings
                                     ++ errorsOf Sample.dirBadWarnings)%list.
Proof.
  apply (@OptionsForDir_keys_checked Sample.ToLower Sample.Schema range_canonical
           Sample.problems Sample.dirBadWarnings
           (sampleOptionsForDir Sample.dirBadWarnings).1
           (sampleOptionsForDir Sample.dirBadWarnings).2).
  - by destruct (sampleOptionsForDir Sample.dirBadWarnings).
  - vm_compute. by eexists.
Defined.

Lemma OptionsForDir_names_only_witness :
  ProblemSeverity (sampleOptionsForDir Sample.dirClean).1
  = ProblemSeverity (sampleOptionsForDir Sample.dirCleanShuffled).1.
Proof.
  apply (@OptionsForDir_names_only Sample.ToLower Sample.Schema range_canonical
           Sample.problems Sample.dirClean Sample.dirCleanShuffled).
  - repeat apply Forall_cons_2; [vm_compute; reflexivity..|apply Forall_nil_2].
  - repeat apply Forall_cons_2; [vm_compute; reflexivity..|apply Forall_nil_2].
  - intros name.
    change (name ∈ ["no-pk"; "bad-charset"] <-> name ∈ ["bad-charset"; "no-pk"; "no-pk"]).
    rewrite !elem_of_cons, !elem_of_nil. tauto.
  - intros name.
    change (name ∈ ["bad-engine"; "no-pk"] <-> name ∈ ["no-pk"; "bad-engine"]).
    rewrite !elem_of_cons, !elem_of_nil. tauto.
Defined.

Lemma LintDir_merges_findings_witness :
  sampleLintDir Sample.dirThree tt
  = Some (fold_left Merge
            (sampleFindings Sample.dirThree tt None
                            (sampleOptionsForDir Sample.dirThree).1
               <$> [Sample.usersSchema; Sample.emptySchema; Sample.postsSchema])
            emptyResult).
Proof.
  apply (@LintDir_merges_findings
           Sample.ToLower Sample.Schema Sample.ObjectDefinitions Sample.ObjectTypeTable
           Sample.ObjectKey_String Sample.SplitTextBody unit Sample.ExecLogicalSchema
           range_canonical Sample.problems Sample.dirThree tt None None).
  - reflexivity.
  - reflexivity.
  - vm_compute. reflexivity.
  - reflexivity.
Defined.


Lemma LintDir_exceptions_witness :
  exists result,
    sampleLintDir Sample.dirThree tt = Some result
    /\ Exceptions result
       = [OtherError "Skipping schema in app due to error: no CREATE statements to run"].
Proof.
  destruct (@LintDir_exceptions
              Sample.ToLower Sample.Schema Sample.ObjectDefinitions Sample.ObjectTypeTable
              Sample.ObjectKey_String Sample.SplitTextBody unit Sample.ExecLogicalSchema
              range_canonical Sample.problems Sample.dirThree tt None None
              (sampleOptionsForDir Sample.dirThree).1)
    as (result & Hrun & Hexceptions & _).
  - reflexivity.
  - reflexivity.
  - vm_compute. reflexivity.
  - reflexivity.
  - exists result. split; [exact Hrun|]. rewrite Hexceptions. reflexivity.
Defined.

Lemma LintDir_ConfigError_alone_witness :
  sampleLintDir Sample.dirBadWarnings tt
  = Some (mkResult [] [] [] []
            [ConfigError
               ("Option warnings must be a comma-separated list including these values: "
                  ++ "no-pk, bad-charset, bad-engine")]).
Proof.
  destruct (sampleLintDir Sample.dirBadWarnings tt) as [result|] eqn:Hrun;
    [|vm_compute in Hrun; discriminate Hrun].
  f_equal.
  apply (@LintDir_ConfigError_alone
           Sample.ToLower Sample.Schema Sample.ObjectDefinitions Sample.ObjectTypeTable
           Sample.ObjectKey_String Sample.SplitTextBody unit Sample.ExecLogicalSchema
           range_canonical Sample.problems Sample.dirBadWarnings tt).
  - exact Hrun.
  - vm_compute in Hrun. injection Hrun as <-. apply list_elem_of_here.
Defined.

Lemma LintDir_no_pattern_no_debug_witness :
  exists result, sampleLintDir Sample.dirThree tt = Some result /\ DebugLogs result = [].
Proof.
  destruct (sampleLintDir Sample.dirThree tt) as [result|] eqn:Hrun;
    [|vm_compute in Hrun; discriminate Hrun].
  exists result. split; [reflexivity|].
  by apply (@LintDir_no_pattern_no_debug
              Sample.ToLower Sample.Schema Sample.ObjectDefinitions Sample.ObjectTypeTable
              Sample.ObjectKey_String Sample.SplitTextBody unit Sample.ExecLogicalSchema
              range_canonical Sample.problems Sample.dirThree tt).
Defined.

Lemma LintDir_format_notices_uniform_witness :
  let notice := mkAnnotation (Some Sample.postsStmt) 0 "SQL statement should be reformatted"
                             "CREATE TABLE posts ( id int);" in
  Summary notice = "SQL statement should be reformatted" /\ LineOffset notice = 0.
Proof.
  intros notice.
  destruct (sampleLintDir Sample.dirThree tt) as [result|] eqn:Hrun;
    [|vm_compute in Hrun; discriminate Hrun].
  apply (@LintDir_format_notices_uniform
           Sample.ToLower Sample.Schema Sample.ObjectDefinitions Sample.ObjectTypeTable
           Sample.ObjectKey_String Sample.SplitTextBody unit Sample.ExecLogicalSchema
           range_canonical Sample.problems Sample.dirThree tt result notice Hrun).
  vm_compute in Hrun. injection Hrun as <-. apply list_elem_of_here.
Defined.

Lemma LintDir_no_warnings_witness :
  exists result,
    sampleLintDir Sample.dirErrorsOnly tt = Some result
    /\ Warnings result = [] /\ length (Errors result) = 2%nat.
Proof.
  destruct (sampleLintDir Sample.dirErrorsOnly tt) as [result|] eqn:Hrun;
    [|vm_compute in Hrun; discriminate Hrun].
  exists result. split; [reflexivity|]. split.
  - apply (@LintDir_no_warnings
             Sample.ToLower Sample.Schema Sample.ObjectDefinitions Sample.ObjectTypeTable
             Sample.ObjectKey_String Sample.SplitTextBody unit Sample.ExecLogicalSchema
             range_canonical Sample.problems Sample.dirErrorsOnly tt result); [|exact Hrun].
    intros name Hin. change (name ∈ @nil string) in Hin.
    apply elem_of_nil in Hin. destruct Hin.
  - vm_compute in Hrun. injection Hrun as <-. reflexivity.
Defined.

Lemma lintLogicalSchemas_append_only_witness :
  let collected := mkResult [] [] [] ["kept"] [] in
  exists result',
    sampleRun Sample.dirThree tt None None (sampleOptionsForDir Sample.dirThree).1
              [Sample.emptySchema; Sample.postsSchema] collected = Some result'
    /\ keeps collected result'.
Proof.
  intros collected.
  destruct (sampleRun Sample.dirThree tt None None (sampleOptionsForDir Sample.dirThree).1
                      [Sample.emptySchema; Sample.postsSchema] collected)
    as [result'|] eqn:Hrun; [|vm_compute in Hrun; discriminate Hrun].
  exists result'. split; [reflexivity|].
  exact (@lintLogicalSchemas_append_only
           Sample.Schema Sample.ObjectDefinitions Sample.ObjectTypeTable
           Sample.ObjectKey_String Sample.SplitTextBody unit Sample.ExecLogicalSchema
           range_canonical Sample.problems Sample.dirThree tt None None _ _ _ _ Hrun).
Defined.

Lemma statement_errors_accounted_witness :
  let after :=
    fold_left (lintStatementError Sample.ObjectTypeTable Sample.ObjectKey_String None)
              [Sample.tableError; Sample.procError] emptyResult in
  Message <$> Errors after
  = ["Table 'users_tmp' already exists"; "You have an error in your SQL syntax"]
  /\ DebugLogs after = [].
Proof.
  intros after.
  destruct (proj2 (statement_errors_accounted
                     Sample.ObjectTypeTable Sample.ObjectKey_String None
                     [Sample.tableError; Sample.procError] emptyResult))
    as [Herrors Hlogs].
  - repeat apply Forall_cons_2; [by intros [_ ?]..|apply Forall_nil_2].
  - subst after. split; [by rewrite Herrors|exact Hlogs].
Defined.

